(** * mfsender: M98 macro storage, migration, expansion and execution

    A shallow embedding of the macro feature of the application:
      - migration.js, the one-time migration of the legacy macros.json,
      - m98-storage.js, the per-record storage that runs it before a read,
      - the [M98Expander] class, which expands an M98 invocation,
      - the handlers of the macro routes (list, get, create, update,
        delete, execute),
    together with the properties the specification states of them and
    further properties the code has.

    Modelling conventions.
      - JavaScript strings are [string]s of bytes; the whitespace that
        [trim] and [parseInt] skip is the ASCII part of it.
      - JavaScript numbers are the integers ([Z]); every comparison the
        code makes is against 9001..9999, far inside the range a double
        holds exactly.
      - A file holds either text that [JSON.parse] rejects ([Raw]) or a
        JSON document ([Doc]); [JSON.stringify] followed by [JSON.parse]
        gives the document back.
      - The file system does not fail: a write to an existing directory
        succeeds.  What the code does on a thrown [TypeError] is kept. *)

From Stdlib Require Import ZArith String Ascii List Bool Lia.
From Stdlib Require Import Decimal DecimalString DecimalZ DecimalPos DecimalN DecimalNat.
From stdpp Require Import gmap strings list sorting.

Import ListNotations.
Local Open Scope string_scope.
#[local] Arguments String.append !s1 s2 : simpl nomatch.
Local Open Scope Z_scope.

(** ** JavaScript values and primitives *)

Module JS.

(** Values that [JSON.parse] produces. *)
#[local] Set Warnings "-register-all".
Inductive json : Type :=
| JNull
| JBool (b : bool)
| JNum (z : Z)
| JStr (s : string)
| JArr (items : list json)
| JObj (fields : list (string * json)).

(** A JavaScript value as a property read gives it: [None] is
    [undefined]. *)
Definition value : Type := option json.

(** ToBoolean. *)
Definition truthy (v : value) : bool :=
  match v with
  | None => false
  | Some JNull => false
  | Some (JBool b) => b
  | Some (JNum z) => negb (z =? 0)
  | Some (JStr s) => negb (String.eqb s "")
  | Some (JArr _) => true
  | Some (JObj _) => true
  end.

(** [a || b]. *)
Definition or_else (a : value) (b : json) : json :=
  match a with
  | Some v => if truthy a then v else b
  | None => b
  end.

(** First binding of a key in a list of fields. *)
Fixpoint assoc {V} (k : string) (fs : list (string * V)) : option V :=
  match fs with
  | [] => None
  | (k', v) :: rest => if String.eqb k k' then Some v else assoc k rest
  end.

(** [o.k] on a value that is not [null]: own properties of an object,
    [undefined] on everything else (the code reads no built-in
    property of strings or arrays this way). *)
Definition prop (o : json) (k : string) : value :=
  match o with
  | JObj fs => assoc k fs
  | _ => None
  end.

(** [o?.k]. *)
Definition optional_prop (o : value) (k : string) : value :=
  match o with
  | None | Some JNull => None
  | Some o => prop o k
  end.

(** [{...o, k: v}] restricted to one key: replace the binding in place,
    or append it. *)
Fixpoint set_field {V} (k : string) (v : V) (fs : list (string * V))
  : list (string * V) :=
  match fs with
  | [] => [(k, v)]
  | (k', v') :: rest =>
      if String.eqb k k' then (k, v) :: rest else (k', v') :: set_field k v rest
  end.

(** *** Characters *)

Definition is_space (c : ascii) : bool :=
  let n := nat_of_ascii c in
  ((9 <=? n) && (n <=? 13) || (n =? 32))%nat.

Definition is_digit (c : ascii) : bool :=
  let n := nat_of_ascii c in
  ((48 <=? n) && (n <=? 57))%nat.

Definition lower (c : ascii) : ascii :=
  let n := nat_of_ascii c in
  if ((65 <=? n) && (n <=? 90))%nat then ascii_of_nat (n + 32) else c.

(** [s.toLowerCase()]. *)
Fixpoint toLowerCase (s : string) : string :=
  match s with
  | EmptyString => EmptyString
  | String c s' => String (lower c) (toLowerCase s')
  end.

(** [s.startsWith(p)] and what follows the prefix, [s.slice(p.length)]. *)
Fixpoint strip_prefix (p s : string) : option string :=
  match p, s with
  | EmptyString, _ => Some s
  | String a p', String b s' => if Ascii.eqb a b then strip_prefix p' s' else None
  | String _ _, EmptyString => None
  end.

Definition startsWith (s p : string) : bool :=
  match strip_prefix p s with Some _ => true | None => false end.

(** [s.endsWith(p)]. *)
Fixpoint endsWith (s p : string) : bool :=
  String.eqb s p ||
  match s with
  | EmptyString => false
  | String _ s' => endsWith s' p
  end.

(** *** Numbers and their text *)

(** [String(n)] for an integer [n]. *)
Definition string_of_Z (z : Z) : string :=
  NilEmpty.string_of_int (Z.to_int z).

(** The decimal digit a character stands for. *)
Definition digit_of (c : ascii) : option (uint -> uint) :=
  match c with
  | "0"%char => Some D0 | "1"%char => Some D1 | "2"%char => Some D2
  | "3"%char => Some D3 | "4"%char => Some D4 | "5"%char => Some D5
  | "6"%char => Some D6 | "7"%char => Some D7 | "8"%char => Some D8
  | "9"%char => Some D9
  | _ => None
  end.

(** The longest run of digits at the head of a string. *)
Fixpoint leading_digits (s : string) : uint :=
  match s with
  | EmptyString => Nil
  | String c s' =>
      match digit_of c with
      | Some d => d (leading_digits s')
      | None => Nil
      end
  end.

Fixpoint skip_spaces (s : string) : string :=
  match s with
  | EmptyString => EmptyString
  | String c s' => if is_space c then skip_spaces s' else s
  end.

Definition digits_value (s : string) : option Z :=
  match leading_digits s with
  | Nil => None
  | d => Some (Z.of_uint d)
  end.

(** [Number.parseInt(s, 10)]: leading whitespace, an optional sign, then
    as many digits as there are; [None] is [NaN]. *)
Definition parseInt (s : string) : option Z :=
  match skip_spaces s with
  | String "-"%char rest => Z.opp <$> digits_value rest
  | String "+"%char rest => digits_value rest
  | rest => digits_value rest
  end.

(** [String(v)]. *)
Fixpoint join_with (sep : string) (parts : list string) : string :=
  match parts with
  | [] => ""
  | [p] => p
  | p :: rest => p ++ sep ++ join_with sep rest
  end.

Fixpoint to_string (v : json) : string :=
  match v with
  | JNull => "null"
  | JBool true => "true"
  | JBool false => "false"
  | JNum z => string_of_Z z
  | JStr s => s
  | JArr items =>
      join_with ","
        (List.map (fun i => match i with JNull => "" | _ => to_string i end) items)
  | JObj _ => "[object Object]"
  end.

Definition String_ (v : value) : string :=
  match v with
  | None => "undefined"
  | Some j => to_string j
  end.

Definition dquote : string := String (ascii_of_nat 34) "".

(** *** Lines *)

(** [s.split('\n')]. *)
Definition newline : ascii := ascii_of_nat 10.

Fixpoint split_lines (s : string) : list string :=
  match s with
  | EmptyString => [""]
  | String c s' =>
      if Ascii.eqb c newline then "" :: split_lines s'
      else
        match split_lines s' with
        | l :: ls => String c l :: ls
        | [] => [String c ""]
        end
  end.

(** [s.trimEnd()], [s.trim()]. *)
Fixpoint trimEnd (s : string) : string :=
  match s with
  | EmptyString => EmptyString
  | String c s' =>
      match trimEnd s' with
      | EmptyString => if is_space c then EmptyString else String c EmptyString
      | kept => String c kept
      end
  end.

Definition trim (s : string) : string := trimEnd (skip_spaces s).

(** *** Objects *)

(** [delete o[k]]: every binding of the key goes. *)
Fixpoint remove_field {V} (k : string) (fs : list (string * V)) : list (string * V) :=
  match fs with
  | [] => []
  | (k', v) :: rest =>
      if String.eqb k k' then remove_field k rest else (k', v) :: remove_field k rest
  end.

(** [{...o, k: v}] for a [v] that may be [undefined]: a property set to
    [undefined] is dropped, as [JSON.stringify] and every read of the
    code treat it. *)
Definition assign_field (k : string) (v : value) (fs : list (string * json))
  : list (string * json) :=
  match v with
  | Some j => set_field k j fs
  | None => remove_field k fs
  end.

(** [s.includes(sub)]. *)
Fixpoint includes (s sub : string) : bool :=
  startsWith s sub ||
  match s with
  | EmptyString => false
  | String _ s' => includes s' sub
  end.

End JS.

Import JS.

(** ** The user-data directory *)

(** What a file holds: text [JSON.parse] rejects (the empty file is one),
    or a document. *)
Inductive contents : Type :=
| Raw (text : string)
| Doc (v : json).

(** The files the macro feature reads and writes, and the clock.
    [macros] is the listing of [MACROS_DIR] without the marker;
    [clock] counts the readings of [new Date()] so far. *)
Record world : Type := World {
  macros : gmap string contents;
  marker : option string;
  legacy : option contents;
  backup : option contents;
  settings : option contents;
  clock : nat
}.

Definition set_macros (f : gmap string contents -> gmap string contents) (w : world) : world :=
  World (f (macros w)) (marker w) (legacy w) (backup w) (settings w) (clock w).
Definition set_marker (m : option string) (w : world) : world :=
  World (macros w) m (legacy w) (backup w) (settings w) (clock w).
Definition set_backup (b : option contents) (w : world) : world :=
  World (macros w) (marker w) (legacy w) b (settings w) (clock w).
Definition set_settings (s : option contents) (w : world) : world :=
  World (macros w) (marker w) (legacy w) (backup w) s (clock w).
Definition tick (w : world) : world :=
  World (macros w) (marker w) (legacy w) (backup w) (settings w) (S (clock w)).

(** ** Exceptions and the state monad the code runs in *)

Inductive error : Type :=
| TypeError (message : string)
| Error (code : option string) (message : string).

Inductive outcome (A : Type) : Type :=
| Return (a : A)
| Throw (e : error).
Arguments Return {A} a.
Arguments Throw {A} e.

(** A computation over a state [S] that returns or throws; what it
    wrote before throwing stays written. *)
Definition ST (S A : Type) : Type := S -> outcome A * S.

Definition ret {S A} (a : A) : ST S A := fun s => (Return a, s).
Definition throw {S A} (e : error) : ST S A := fun s => (Throw e, s).
Definition bind {S A B} (m : ST S A) (k : A -> ST S B) : ST S B :=
  fun s =>
    match m s with
    | (Return a, s') => k a s'
    | (Throw e, s') => (Throw e, s')
    end.
Definition gets {S A} (f : S -> A) : ST S A := fun s => (Return (f s), s).
Definition modify {S} (f : S -> S) : ST S unit := fun s => (Return tt, f s).
(** [try { m } catch (error) { handler }]. *)
Definition try_catch {S A} (m : ST S A) (handler : error -> ST S A) : ST S A :=
  fun s =>
    match m s with
    | (Return a, s') => (Return a, s')
    | (Throw e, s') => handler e s'
    end.

(** The storage and migration code runs over the files. *)
Abbreviation M := (ST world).

Notation "x <- m ;; k" := (bind m (fun x => k))
  (at level 100, m at next level, right associativity).
Notation "m ;;; k" := (bind m (fun _ => k))
  (at level 100, right associativity).

Definition ID_MIN : Z := 9001.
Definition ID_MAX : Z := 9999.
Definition MACRO_EXT : string := ".macro".

(** [MACROS_DIR/<id>.macro], as an entry name of the directory. *)
Definition macro_file (id : value) : string := String_ id ++ MACRO_EXT.

(** ** migration.js *)

Module Migration.
Section WithClock.

(** [iso n] is what the [n]-th reading of [new Date().toISOString()]
    gives. *)
Variable iso : nat -> string.

Definition now : M string :=
  fun w => (Return (iso (clock w)), tick w).

(** [fs.mkdirSync(MACROS_DIR, {recursive: true})]: the directory is
    there afterwards. *)
Definition ensureMacrosDir : M unit := ret tt.

Definition listMacroFiles : M (list string) :=
  gets (fun w =>
    filter (fun entry => endsWith (toLowerCase entry) MACRO_EXT = true)
           (map_to_list (macros w)).*1).

Definition writeMigratedMarker : M unit :=
  t <- now ;; modify (set_marker (Some t)).

(** [null] when the file cannot be read or parsed, [[]] when it holds a
    document that is no array. *)
Definition readLegacyMacros : M (option (list json)) :=
  gets (fun w =>
    match legacy w with
    | Some (Doc (JArr parsed)) => Some parsed
    | Some (Doc _) => Some []
    | Some (Raw _) => None
    | None => None
    end).

Definition backupLegacyMacros : M unit :=
  modify (fun w =>
    match backup w with
    | Some _ => w
    | None =>
        match legacy w with
        | Some c => set_backup (Some c) w
        | None => w
        end
    end).

Definition writeMacroFile (macro : json) : M unit :=
  modify (set_macros (insert (macro_file (prop macro "id")) (Doc macro))).

(** [{...v}]: the own enumerable properties of [v]. *)
Fixpoint indexed {A} (wrap : A -> json) (i : nat) (l : list A) : list (string * json) :=
  match l with
  | [] => []
  | x :: rest => (string_of_Z (Z.of_nat i), wrap x) :: indexed wrap (S i) rest
  end.

Definition spread (v : value) : list (string * json) :=
  match v with
  | Some (JObj fs) => fs
  | Some (JArr items) => indexed (fun x => x) 0 items
  | Some (JStr s) => indexed (fun c => JStr (String c "")) 0 (list_ascii_of_string s)
  | _ => []
  end.

Definition MACRO_PREFIX : string := "Macro:".

(** One turn of the [forEach] over [Object.entries(updatedBindings)]:
    the bindings so far and the [changed] flag. *)
Definition rebind (idMap : gmap string string)
    (acc : list (string * json) * bool) (entry : string * json)
  : list (string * json) * bool :=
  match entry.2 with
  | JStr value =>
      match strip_prefix MACRO_PREFIX value with
      | None => acc
      | Some oldId =>
          match idMap !! oldId with
          | None => acc
          | Some newId =>
              if String.eqb newId "" then acc
              else (set_field entry.1 (JStr (MACRO_PREFIX ++ newId)) acc.1, true)
          end
      end
  | _ => acc
  end.

(** Settings that are absent, unreadable, no object, or without
    [keyboardBindings] (an array has none) are left alone. *)
Definition updateKeyboardBindings (idMap : gmap string string) : M unit :=
  fun w =>
    match settings w with
    | None => (Return tt, w)
    | Some (Raw _) => (Return tt, w)
    | Some (Doc settings) =>
        match settings with
        | JObj _ =>
            if negb (truthy (prop settings "keyboardBindings")) then (Return tt, w)
            else
              let updatedBindings := spread (prop settings "keyboardBindings") in
              let '(updatedBindings, changed) :=
                fold_left (rebind idMap) updatedBindings (updatedBindings, false) in
              if negb changed then (Return tt, w)
              else
                let updatedSettings :=
                  JObj (set_field "keyboardBindings" (JObj updatedBindings)
                          (spread (Some settings))) in
                (Return tt, set_settings (Some (Doc updatedSettings)) w)
        | _ => (Return tt, w)
        end
    end.

(** What the migration reports. *)
Record report : Type := Report {
  migrated : bool;
  reason : option string;
  count : option nat
}.

Definition not_migrated (why : string) : report := Report false (Some why) None.

(** The body of [legacyMacros.forEach((legacy, index) => ...)], from
    [index] on; reading a property of [null] throws. *)
Fixpoint migrateEach (now : string) (index : nat) (idMap : gmap string string)
    (legacyMacros : list json) : M (gmap string string) :=
  match legacyMacros with
  | [] => ret idMap
  | legacy :: rest =>
      let newId := string_of_Z (ID_MIN + Z.of_nat index) in
      match legacy with
      | JNull => throw (TypeError "Cannot read properties of null (reading 'id')")
      | _ =>
          let idMap := <[String_ (prop legacy "id") := newId]> idMap in
          let macro := JObj [
            ("id", JStr newId);
            ("name", or_else (prop legacy "name") (JStr ("Macro " ++ newId)));
            ("description", or_else (prop legacy "description") (JStr ""));
            ("commands", or_else (prop legacy "commands") (JStr ""));
            ("createdAt", or_else (prop legacy "createdAt") (JStr now));
            ("updatedAt", or_else (prop legacy "updatedAt") (JStr now))
          ] in
          writeMacroFile macro ;;;
          migrateEach now (S index) idMap rest
      end
  end.

Definition migrateLegacyMacrosIfNeeded : M report :=
  ensureMacrosDir ;;;
  hasMarker <- gets (fun w => bool_decide (is_Some (marker w))) ;;
  if hasMarker : bool then ret (not_migrated "marker")
  else
    existingMacroFiles <- listMacroFiles ;;
    if (0 <? length existingMacroFiles)%nat then
      hasLegacy <- gets (fun w => bool_decide (is_Some (legacy w))) ;;
      hasBackup <- gets (fun w => bool_decide (is_Some (backup w))) ;;
      (if hasLegacy && negb hasBackup then backupLegacyMacros else ret tt) ;;;
      writeMigratedMarker ;;;
      ret (not_migrated "existing")
    else
      hasLegacy <- gets (fun w => bool_decide (is_Some (legacy w))) ;;
      if negb hasLegacy then ret (not_migrated "no-legacy")
      else
        legacyMacros <- readLegacyMacros ;;
        match legacyMacros with
        | None => ret (not_migrated "read-failed")
        | Some legacyMacros =>
            backupLegacyMacros ;;;
            if (Z.of_nat (length legacyMacros) >? ID_MAX - ID_MIN + 1) then
              ret (not_migrated "range-exceeded")
            else
              now <- now ;;
              idMap <- migrateEach now 0 ∅ legacyMacros ;;
              updateKeyboardBindings idMap ;;;
              writeMigratedMarker ;;;
              ret (Report true None (Some (length legacyMacros)))
        end.

End WithClock.
End Migration.

(** ** m98-storage.js *)

Module Storage.
Section WithClock.

Variable iso : nat -> string.

(** The two clock readings taken when the module is loaded. *)
Variable loadedAt : string * string.

Definition commands_sample : string :=
  "G91 G1 X100 F1000" ++ String newline "G91 G1 X-100 F1000".

Definition DEFAULT_MACRO : json := JObj [
  ("id", JStr "9001");
  ("name", JStr "Macro Sample");
  ("description", JStr "Finds the hole center using probe");
  ("commands", JStr commands_sample);
  ("createdAt", JStr loadedAt.1);
  ("updatedAt", JStr loadedAt.2)
].

Definition ensureMacrosDir : M unit := ret tt.

Definition isMacroFile (name : string) : bool :=
  endsWith (toLowerCase name) MACRO_EXT.

Definition getMacroPath (id : value) : string := macro_file id.

Definition isValidMacroId (id : value) : bool :=
  match parseInt (String_ id) with
  | Some numeric => (ID_MIN <=? numeric) && (numeric <=? ID_MAX)
  | None => false
  end.

Definition normalizeMacroId (id : value) : option string :=
  match parseInt (String_ id) with
  | Some numeric => Some (string_of_Z numeric)
  | None => None
  end.

(** [typeof v === 'object']. *)
Definition is_object (v : json) : bool :=
  match v with
  | JNull | JArr _ | JObj _ => true
  | _ => false
  end.

(** Every failure to read or parse is caught and gives [null]. *)
Definition parseMacroFile (filePath : string) (w : world) : option json :=
  match macros w !! filePath with
  | None => None
  | Some (Raw _) => None
  | Some (Doc parsed) =>
      if negb (truthy (Some parsed)) || negb (is_object parsed) then None
      else if negb (truthy (prop parsed "id")) || negb (isValidMacroId (prop parsed "id"))
      then None
      else Some parsed
  end.

Definition writeMacroFile (macro : json) : M unit :=
  ensureMacrosDir ;;;
  modify (set_macros (insert (getMacroPath (prop macro "id")) (Doc macro))).

Definition listMacroFiles : M (list string) :=
  ensureMacrosDir ;;;
  gets (fun w => filter (fun entry => isMacroFile entry = true) (map_to_list (macros w)).*1).

Definition ensureDefaultMacroIfEmpty : M unit :=
  files <- listMacroFiles ;;
  if (0 <? length files)%nat then ret tt
  else
    hasLegacy <- gets (fun w => bool_decide (is_Some (legacy w))) ;;
    hasMigratedMarker <- gets (fun w => bool_decide (is_Some (marker w))) ;;
    if hasLegacy && negb hasMigratedMarker then ret tt
    else writeMacroFile DEFAULT_MACRO.

(** The number the comparator and the allocator read off a record,
    [Number.parseInt(m.id, 10)]; records that reach them have a valid
    identifier, so the [NaN] case does not arise. *)
Definition id_number (m : json) : Z :=
  match parseInt (String_ (prop m "id")) with
  | Some n => n
  | None => 0
  end.

(** [Array.prototype.sort] with a comparator [key a - key b]: a stable
    sort by key. *)
Fixpoint insert_sorted {A} (key : A -> Z) (x : A) (l : list A) : list A :=
  match l with
  | [] => [x]
  | y :: rest => if key x <=? key y then x :: l else y :: insert_sorted key x rest
  end.

Definition sort_by {A} (key : A -> Z) (l : list A) : list A :=
  foldr (insert_sorted key) [] l.

Definition readMacros : M (list json) :=
  Migration.migrateLegacyMacrosIfNeeded iso ;;;
  ensureMacrosDir ;;;
  ensureDefaultMacroIfEmpty ;;;
  files <- listMacroFiles ;;
  macros <- gets (fun w => omap (fun file => parseMacroFile file w) files) ;;
  ret (sort_by id_number macros).

Definition getMacro (id : value) (w : world) : option json :=
  match normalizeMacroId id with
  | None => None
  | Some normalized =>
      if String.eqb normalized "" || negb (isValidMacroId (Some (JStr normalized)))
      then None
      else
        let filePath := getMacroPath (Some (JStr normalized)) in
        match macros w !! filePath with
        | None => None
        | Some _ => parseMacroFile filePath w
        end
  end.

(** The [for] loop of [getNextMacroId], [fuel] turns from [id] on. *)
Fixpoint scan_ids (used : gset Z) (id : Z) (fuel : nat) : option Z :=
  match fuel with
  | O => None
  | S fuel => if bool_decide (id ∈ used) then scan_ids used (id + 1) fuel else Some id
  end.

Definition NO_IDS : error := Error None "No available macro IDs in range 9001-9999".

Definition getNextMacroId : M string :=
  macros <- readMacros ;;
  let used : gset Z := list_to_set (id_number <$> macros) in
  match scan_ids used ID_MIN (Z.to_nat (ID_MAX - ID_MIN + 1)) with
  | Some id => ret (string_of_Z id)
  | None => throw NO_IDS
  end.

Definition createMacro (macroData : json) : M json :=
  id <- getNextMacroId ;;
  now <- Migration.now iso ;;
  match macroData with
  | JNull => throw (TypeError "Cannot read properties of null (reading 'name')")
  | _ =>
      let newMacro := JObj [
        ("id", JStr id);
        ("name", or_else (prop macroData "name") (JStr ("Macro " ++ id)));
        ("description", or_else (prop macroData "description") (JStr ""));
        ("commands", or_else (prop macroData "commands") (JStr ""));
        ("createdAt", JStr now);
        ("updatedAt", JStr now)
      ] in
      writeMacroFile newMacro ;;;
      ret newMacro
  end.

(** [{...base, ...extra}]. *)
Definition spread_over (base extra : list (string * json)) : list (string * json) :=
  fold_left (fun acc kv => set_field kv.1 kv.2 acc) extra base.

Definition NOT_FOUND (id : value) : error :=
  Error None ("Macro with id " ++ String_ id ++ " not found").

Definition updateMacro (id : value) (updates : value) : M json :=
  existing <- gets (getMacro id) ;;
  match existing with
  | None => throw (NOT_FOUND id)
  | Some existing =>
      now <- Migration.now iso ;;
      let updated := JObj
        (set_field "updatedAt" (JStr now)
           (assign_field "createdAt" (prop existing "createdAt")
              (assign_field "id" (prop existing "id")
                 (spread_over (Migration.spread (Some existing))
                    (Migration.spread updates))))) in
      writeMacroFile updated ;;;
      ret updated
  end.

(** [fs.unlinkSync]: removing a file that is not there throws. *)
Definition ENOENT (filePath : string) : error :=
  Error (Some "ENOENT")
    ("ENOENT: no such file or directory, unlink '" ++ filePath ++ "'").

Definition unlinkSync (filePath : string) : M unit :=
  fun w =>
    match macros w !! filePath with
    | Some _ => (Return tt, set_macros (delete filePath) w)
    | None => (Throw (ENOENT filePath), w)
    end.

(** [readSettings] and [saveSettings] of core/settings-manager.js are
    parameters: whatever they do to the files, and they may throw. *)
Variable readSettings : M value.
Variable saveSettings : json -> M unit.

(** [k in v]: own keys of an object, indices and [length] of an array;
    a primitive on the right throws. *)
Definition has_key (k : string) (v : json) : outcome bool :=
  match v with
  | JObj fs => Return (bool_decide (is_Some (assoc k fs)))
  | JArr items =>
      Return (String.eqb k "length"
              || bool_decide (is_Some (assoc k (Migration.spread (Some v)))))
  | _ => Throw (TypeError "Cannot use 'in' operator to search for a key in a primitive")
  end.

(** The [try] block of [deleteMacro] that drops the keyboard shortcut
    of the macro; the [catch] around it logs and goes on. *)
Definition removeBinding (existing : json) : M unit :=
  settings <- readSettings ;;
  if truthy settings && truthy (optional_prop settings "keyboardBindings") then
    let actionId := "Macro:" ++ String_ (prop existing "id") in
    let keyboardBindings := or_else (optional_prop settings "keyboardBindings") JNull in
    present <- (fun w => (has_key actionId keyboardBindings, w)) ;;
    if present : bool then
      let updatedBindings :=
        remove_field actionId (Migration.spread (Some keyboardBindings)) in
      saveSettings
        (JObj (set_field "keyboardBindings" (JObj updatedBindings)
                 (Migration.spread settings)))
    else ret tt
  else ret tt.

Definition deleteMacro (id : value) : M json :=
  existing <- gets (getMacro id) ;;
  match existing with
  | None => throw (NOT_FOUND id)
  | Some existing =>
      unlinkSync (getMacroPath (prop existing "id")) ;;;
      try_catch (removeBinding existing) (fun error => ret tt) ;;;
      ret (JObj [("success", JBool true);
                 ("id", or_else (prop existing "id") JNull)])
  end.

End WithClock.
End Storage.

(** ** The M98 expander *)

Module Expander.
Section WithParser.

(** What [parseM98Command] of utils/gcode-patterns.js returns: whether
    the command is an M98 invocation, and the program number captured
    after [P], if any.  The parser itself is a parameter. *)
Record parsedM98 : Type := ParsedM98 {
  matched : bool;
  macroId : value
}.

Variable parseM98Command : string -> option parsedM98.

Record expansion : Type := Expansion {
  macro : json;
  commands : list string
}.

Definition MISSING_ID : error :=
  Error (Some "M98_MISSING_ID") "M98 command requires P####".

Definition NOT_FOUND (macroId : value) : error :=
  Error (Some "M98_NOT_FOUND") ("Macro " ++ String_ macroId ++ " not found").

(** The lines of a command text: split at newlines, trimmed, the empty
    ones dropped. *)
Definition command_lines (text : string) : list string :=
  filter (fun line => line ≠ "") (trim <$> split_lines text).

Definition expand (command : string) (w : world) : outcome (option expansion) :=
  match parseM98Command command with
  | None => Return None
  | Some parsed =>
      if negb (matched parsed) then Return None
      else if negb (truthy (macroId parsed)) then Throw MISSING_ID
      else
        match Storage.getMacro (macroId parsed) w with
        | None => Throw (NOT_FOUND (macroId parsed))
        | Some macro =>
            let commands :=
              command_lines (to_string (or_else (prop macro "commands") (JStr ""))) in
            Return (Some (Expansion macro commands))
        end
  end.

End WithParser.
End Expander.

(** ** The macro routes: the execute handler *)

Module Routes.
Section WithDevice.

(** The collaborators outside this code: the device controller and the
    command pipeline, with a state [X] of their own. *)
Variable X : Type.

(** [cncController] is not [null]. *)
Variable cncController : bool.
Variable isConnected : X -> value.
Variable lastStatus : X -> value.

Record pluginContext : Type := PluginContext {
  ctx_sourceId : string;
  ctx_commandId : string;
  ctx_meta : list (string * value);
  ctx_machineState : value
}.

Record processResult : Type := ProcessResult {
  shouldContinue : bool;
  commands : list json;
  result : value
}.

Record sendOptions : Type := SendOptions {
  commandId : json;
  displayCommand : value;
  meta : option (list (string * value))
}.

(** [await commandProcessor.instance.process(...)] and
    [await cncController.sendCommand(...)]: the promise settles, with a
    value or with a rejection that [await] throws. *)
Variable process : string -> pluginContext -> X -> outcome processResult * X.
Variable sendCommand : value -> sendOptions -> X -> outcome unit * X.

(** [`${Date.now()}-${Math.random().toString(16).slice(2)}`], at the
    [n]-th draw. *)
Variable stamp : nat -> string.

Record response : Type := Response {
  status : Z;
  body : list (string * json)
}.

(** What the handler does to the outside, in the order it does it. *)
Inductive event : Type :=
| Processed (command : string) (context : pluginContext)
| Issued (command : value) (options : sendOptions)
| Settled (command : value) (rejected : bool)
| Responded (r : response).

Record env : Type := Env {
  files : world;
  device : X;
  draws : nat;
  trace : list event
}.

Abbreviation H := (ST env).

Definition emit (e : event) : H unit :=
  modify (fun s => Env (files s) (device s) (draws s) (trace s ++ [e])).

Definition draw : H string :=
  fun s => (Return (stamp (draws s)), Env (files s) (device s) (S (draws s)) (trace s)).

(** A call into the collaborators, awaited. *)
Definition external {A} (call : X -> outcome A * X) : H A :=
  fun s =>
    let '(r, x) := call (device s) in
    (r, Env (files s) x (draws s) (trace s)).

Definition respond (status : Z) (body : list (string * json)) : H unit :=
  emit (Responded (Response status body)).

Definition await_process (command : string) (context : pluginContext) : H processResult :=
  emit (Processed command context) ;;;
  external (process command context).

Definition await_sendCommand (command : value) (options : sendOptions) : H unit :=
  emit (Issued command options) ;;;
  try_catch
    (external (sendCommand command options) ;;; emit (Settled command false))
    (fun error => emit (Settled command true) ;;; throw error).

Definition error_message (e : error) : string :=
  match e with
  | TypeError m => m
  | Error _ m => m
  end.

(** [{...base, ...extra}]. *)
Definition merge {V} (base extra : list (string * V)) : list (string * V) :=
  fold_left (fun acc kv => set_field kv.1 kv.2 acc) extra base.

(** The body of [for (const cmd of result.commands)]. *)
Fixpoint forward (macroId : string) (macroName : value) (contextId : string)
    (cmds : list json) : H unit :=
  match cmds with
  | [] => ret tt
  | cmd :: rest =>
      match cmd with
      | JNull => throw (TypeError "Cannot read properties of null (reading 'displayCommand')")
      | _ =>
          let cmdDisplayCommand :=
            if truthy (prop cmd "displayCommand") then prop cmd "displayCommand"
            else prop cmd "command" in
          let cmdMeta :=
            merge [("sourceId", Some (JStr "macro"));
                   ("macroId", Some (JStr macroId));
                   ("macroName", macroName)]
                  (List.map (fun kv => (kv.1, Some kv.2))
                     (Migration.spread (Some (or_else (prop cmd "meta") (JObj []))))) in
          uniqueCommandId <-
            (if truthy (prop cmd "commandId")
             then ret (or_else (prop cmd "commandId") JNull)
             else (d <- draw ;; ret (JStr (contextId ++ "-" ++ d)))) ;;
          await_sendCommand (prop cmd "command")
            (SendOptions uniqueCommandId cmdDisplayCommand
               (if (0 <? length cmdMeta)%nat then Some cmdMeta else None)) ;;;
          forward macroId macroName contextId rest
      end
  end.

Definition handleExecute (id : value) : H unit :=
  try_catch
    (connected <- gets (fun s => cncController && truthy (isConnected (device s))) ;;
     if negb connected then
       respond 503 [("error", JStr "CNC controller is not connected")]
     else
       match Storage.normalizeMacroId id with
       | None => respond 400 [("error", JStr "Macro ID must be between 9001 and 9999")]
       | Some macroId =>
           if String.eqb macroId "" || negb (Storage.isValidMacroId (Some (JStr macroId)))
           then respond 400 [("error", JStr "Macro ID must be between 9001 and 9999")]
           else
             found <- gets (fun s => Storage.getMacro (Some (JStr macroId)) (files s)) ;;
             match found with
             | None => respond 404 [("error", JStr "Macro not found")]
             | Some macro =>
                 let m98Command := "M98 P" ++ macroId in
                 d <- draw ;;
                 machineState <- gets (fun s => lastStatus (device s)) ;;
                 let pluginContext :=
                   PluginContext "macro" ("macro-" ++ d)
                     [("sourceId", Some (JStr "macro"));
                      ("macroId", Some (JStr macroId));
                      ("macroName", prop macro "name")]
                     machineState in
                 r <- await_process m98Command pluginContext ;;
                 if negb (shouldContinue r) then
                   respond 400
                     [("error", JStr "Failed to execute macro");
                      ("message",
                       or_else (optional_prop (result r) "message")
                         (JStr "Execution failed"))]
                 else
                   forward macroId (prop macro "name") (ctx_commandId pluginContext)
                     (commands r) ;;;
                   respond 200
                     [("success", JBool true);
                      ("message",
                       JStr ("Macro " ++ dquote ++ String_ (prop macro "name")
                             ++ dquote ++ " executed via " ++ m98Command))]
             end
       end)
    (fun error =>
       respond 500
         [("error", JStr "Failed to execute macro");
          ("message", JStr (error_message error))]).

End WithDevice.

Arguments files {X} _.
Arguments device {X} _.
Arguments draws {X} _.
Arguments trace {X} _.
Arguments Env {X} _ _ _ _.
Arguments emit {X} _ _.
Arguments draw {X} _ _.
Arguments external {X A} _ _.
Arguments respond {X} _ _ _.
Arguments await_process {X} _ _ _ _.
Arguments await_sendCommand {X} _ _ _ _.
Arguments forward {X} _ _ _ _ _ _ _.
Arguments handleExecute {X} _ _ _ _ _ _ _ _.

End Routes.

(** ** The macro routes: list, get, create, update, delete *)

Module Handlers.
Section WithStorage.

Variable iso : nat -> string.
Variable loadedAt : string * string.
Variable readSettings : M value.
Variable saveSettings : json -> M unit.

(** What a handler answers: [res.status(code).json(payload)]; [res.json]
    alone answers 200. *)
Record reply : Type := Reply {
  code : Z;
  payload : json
}.

Definition failure (code : Z) (message : string) : reply :=
  Reply code (JObj [("error", JStr message)]).

Definition BAD_ID : reply := failure 400 "Macro ID must be between 9001 and 9999".

(** [const { name, description, commands } = req.body]: a body that is
    [undefined] or [null] cannot be destructured. *)
Definition destructure (body : value) : M json :=
  match body with
  | None | Some JNull =>
      throw (TypeError "Cannot destructure property 'name' of 'req.body'")
  | Some body => ret body
  end.

Definition handleList : M reply :=
  try_catch
    (macros <- Storage.readMacros iso loadedAt ;;
     ret (Reply 200 (JArr macros)))
    (fun error => ret (failure 500 "Failed to read macros")).

Definition handleGet (id : value) : M reply :=
  try_catch
    (match Storage.normalizeMacroId id with
     | None => ret BAD_ID
     | Some macroId =>
         if String.eqb macroId "" || negb (Storage.isValidMacroId (Some (JStr macroId)))
         then ret BAD_ID
         else
           macro <- gets (Storage.getMacro (Some (JStr macroId))) ;;
           match macro with
           | None => ret (failure 404 "Macro not found")
           | Some macro => ret (Reply 200 macro)
           end
     end)
    (fun error => ret (failure 500 "Failed to read macro")).

Definition handleCreate (body : value) : M reply :=
  try_catch
    (body <- destructure body ;;
     let name := prop body "name" in
     let description := prop body "description" in
     let commands := prop body "commands" in
     if negb (truthy name) || negb (truthy commands)
     then ret (failure 400 "Name and commands are required")
     else
       newMacro <- Storage.createMacro iso loadedAt
         (JObj (assign_field "commands" commands
                  (assign_field "description" description
                     (assign_field "name" name [])))) ;;
       ret (Reply 201 newMacro))
    (fun error => ret (failure 500 "Failed to create macro")).

(** The [catch] of the update and delete handlers: an error whose
    message says [not found] is a 404. *)
Definition not_found_or (message : string) (error : error) : reply :=
  if includes (Routes.error_message error) "not found"
  then failure 404 (Routes.error_message error)
  else failure 500 message.

Definition handleUpdate (id : value) (body : value) : M reply :=
  try_catch
    (body <- destructure body ;;
     let updates :=
       assign_field "commands" (prop body "commands")
         (assign_field "description" (prop body "description")
            (assign_field "name" (prop body "name") [])) in
     match Storage.normalizeMacroId id with
     | None => ret BAD_ID
     | Some macroId =>
         if String.eqb macroId "" || negb (Storage.isValidMacroId (Some (JStr macroId)))
         then ret BAD_ID
         else
           updatedMacro <- Storage.updateMacro iso (Some (JStr macroId))
                             (Some (JObj updates)) ;;
           ret (Reply 200 updatedMacro)
     end)
    (fun error => ret (not_found_or "Failed to update macro" error)).

Definition handleDelete (id : value) : M reply :=
  try_catch
    (match Storage.normalizeMacroId id with
     | None => ret BAD_ID
     | Some macroId =>
         if String.eqb macroId "" || negb (Storage.isValidMacroId (Some (JStr macroId)))
         then ret BAD_ID
         else
           result <- Storage.deleteMacro readSettings saveSettings
                       (Some (JStr macroId)) ;;
           ret (Reply 200 result)
     end)
    (fun error => ret (not_found_or "Failed to delete macro" error)).

End WithStorage.
End Handlers.

(** * Specification

    The words of the specification, and the shapes the proofs below
    speak of.  From here on [++] joins lists and [+:+] joins strings. *)

Local Open Scope list_scope.

(** ** Texts *)

(** A text that does not go on with a digit. *)
Definition no_digit_ahead (rest : string) : Prop :=
  match rest with
  | EmptyString => True
  | String c _ => digit_of c = None
  end.

(** ** The migration *)

(** The per-record files of the directory, as both listings give them. *)
Definition macro_files (w : world) : list string :=
  filter (fun entry => Storage.isMacroFile entry = true) (map_to_list (macros w)).*1.

(** A clock to run examples with. *)
Definition sample_iso (n : nat) : string :=
  "2026-01-01T00:00:0" +:+ string_of_Z (Z.of_nat n) +:+ ".000Z".

Definition empty_world : world := World ∅ None None None None 0.

(** The array the migration works on. *)
Definition legacy_records (v : json) : list json :=
  match v with
  | JArr parsed => parsed
  | _ => []
  end.

(** The files once [backupLegacyMacros] has run. *)
Definition backed_up (w : world) : world :=
  match backup w with
  | Some _ => w
  | None =>
      match legacy w with
      | Some c => set_backup (Some c) w
      | None => w
      end
  end.

(** The files once [writeMigratedMarker] has run. *)
Definition marked (iso : nat -> string) (w : world) : world :=
  set_marker (Some (iso (clock w))) (tick w).

(** What the specification asks of a binding: an action [Macro:<old>]
    whose [old] the map knows becomes [Macro:<new>], any other value
    stays. *)
Definition rewrite_action (idMap : gmap string string) (action : json) : json :=
  match action with
  | JStr value =>
      match strip_prefix Migration.MACRO_PREFIX value with
      | Some oldId =>
          match idMap !! oldId with
          | Some newId => JStr (Migration.MACRO_PREFIX +:+ newId)
          | None => action
          end
      | None => action
      end
  | _ => action
  end.

Definition rewritable (idMap : gmap string string) (action : json) : bool :=
  match action with
  | JStr value =>
      match strip_prefix Migration.MACRO_PREFIX value with
      | Some oldId => bool_decide (is_Some (idMap !! oldId))
      | None => false
      end
  | _ => false
  end.

Definition rewrite_bindings (idMap : gmap string string)
    (bindings : list (string * json)) : list (string * json) :=
  (fun entry => (entry.1, rewrite_action idMap entry.2)) <$> bindings.

(** The identifier, the entry name and the record that the migration
    gives the legacy record at [index]. *)
Definition new_id (index : nat) : string := string_of_Z (ID_MIN + Z.of_nat index).

Definition new_file (index : nat) : string := macro_file (Some (JStr (new_id index))).

Definition migrated_record (now : string) (index : nat) (legacy : json) : json :=
  JObj [
    ("id", JStr (new_id index));
    ("name", or_else (prop legacy "name") (JStr ("Macro " +:+ new_id index)));
    ("description", or_else (prop legacy "description") (JStr ""));
    ("commands", or_else (prop legacy "commands") (JStr ""));
    ("createdAt", or_else (prop legacy "createdAt") (JStr now));
    ("updatedAt", or_else (prop legacy "updatedAt") (JStr now))
  ].

(** The identifier map and the directory after the records from
    [index] on went through the loop. *)
Fixpoint id_map_from (index : nat) (idMap : gmap string string) (records : list json)
  : gmap string string :=
  match records with
  | [] => idMap
  | legacy :: rest =>
      id_map_from (S index) (<[String_ (prop legacy "id") := new_id index]> idMap) rest
  end.

Fixpoint written_from (now : string) (index : nat) (records : list json)
    (dir : gmap string contents) : gmap string contents :=
  match records with
  | [] => dir
  | legacy :: rest =>
      written_from now (S index) rest
        (<[new_file index := Doc (migrated_record now index legacy)]> dir)
  end.

(** The keyboard bindings of a settings document, entry by entry. *)
Definition keyboard_bindings (fs : list (string * json)) : list (string * json) :=
  Migration.spread (assoc "keyboardBindings" fs).

(** settings.json after the migration, as the specification has it:
    every binding rewritten, and the file written only if one was. *)
Definition rebound_settings (idMap : gmap string string) (s : option contents)
  : option contents :=
  match s with
  | Some (Doc (JObj fs)) =>
      if existsb (fun entry => rewritable idMap entry.2) (keyboard_bindings fs)
      then Some (Doc (JObj (set_field "keyboardBindings"
                   (JObj (rewrite_bindings idMap (keyboard_bindings fs))) fs)))
      else s
  | _ => s
  end.

(** A settings document binds each key once, as a parsed object does. *)
Definition bindings_well_formed (s : option contents) : Prop :=
  match s with
  | Some (Doc (JObj fs)) => NoDup (keyboard_bindings fs).*1
  | _ => True
  end.

(** A report after which the marker is in place: the migration ran, or
    found the marker or per-record files. *)
Definition settled (r : Migration.report) : bool :=
  Migration.migrated r
  || bool_decide (Migration.reason r = Some "marker")
  || bool_decide (Migration.reason r = Some "existing").

(** *** A legacy installation *)

Definition sample_records : list json := [
  JObj [("id", JStr "A"); ("name", JStr "Probe"); ("commands", JStr "G38.2 Z-10 F50")];
  JObj [("id", JStr "B"); ("description", JStr "park"); ("commands", JStr "G53 G0 Z0")]
].

Definition sample_settings : json := JObj [
  ("theme", JStr "dark");
  ("keyboardBindings",
   JObj [("F1", JStr "Macro:B"); ("F2", JStr "JogXPlus"); ("F3", JStr "Macro:C")])
].

Definition legacy_install : world :=
  World ∅ None (Some (Doc (JArr sample_records))) None (Some (Doc sample_settings)) 0.

(** ** The storage *)

(** What [parseMacroFile] asks of a parsed document. *)
Definition accepted (parsed : json) : bool :=
  truthy (Some parsed) && Storage.is_object parsed
  && truthy (prop parsed "id") && Storage.isValidMacroId (prop parsed "id").

(** The records of the directory in the order of the listing, before
    they are sorted. *)
Definition records_of (w : world) : list json :=
  omap (fun file => Storage.parseMacroFile file w) (macro_files w).

(** The files once [ensureDefaultMacroIfEmpty] has run. *)
Definition seeded (loadedAt : string * string) (w : world) : world :=
  if (0 <? length (macro_files w))%nat then w
  else if bool_decide (is_Some (legacy w)) && negb (bool_decide (is_Some (marker w)))
  then w
  else set_macros (insert "9001.macro" (Doc (Storage.DEFAULT_MACRO loadedAt))) w.

(** An identifier in the range of the macros. *)
Definition in_range (z : Z) : Prop := ID_MIN <= z <= ID_MAX.

(** The identifier of a record reads as an integer of the range. *)
Definition valid_id (m : json) : Prop :=
  truthy (prop m "id") = true /\
  exists n, parseInt (String_ (prop m "id")) = Some n /\ in_range n.

(** The specification's numeric string: digits and nothing else. *)
Definition numeric_string (v : value) : bool :=
  match v with
  | Some (JStr s) =>
      negb (String.eqb s "") && forallb is_digit (list_ascii_of_string s)
  | _ => false
  end.

(** Every per-record file that holds a valid record is named after the
    number of its identifier, as the files this code writes are. *)
Definition named_by_id (dir : gmap string contents) : Prop :=
  forall (f : string) (m : json),
    Storage.isMacroFile f = true -> dir !! f = Some (Doc m) -> accepted m = true ->
    f = macro_file (Some (JStr (string_of_Z (Storage.id_number m)))).

(** *** A migrated installation *)

Definition sample_loadedAt : string * string :=
  ("2026-01-01T00:00:00.000Z", "2026-01-01T00:00:00.001Z").

Definition record (id name commands : string) : json := JObj [
  ("id", JStr id); ("name", JStr name); ("description", JStr "");
  ("commands", JStr commands);
  ("createdAt", JStr "2025-06-01T10:00:00.000Z");
  ("updatedAt", JStr "2025-06-01T10:00:00.000Z")
].

(** A migrated installation with the records 9001 and 9003. *)
Definition stored_install : world :=
  World
    (<["9001.macro" := Doc (record "9001" "Home" "G53 G0 Z0")]>
       (<["9003.macro" := Doc (record "9003" "Probe" "G38.2 Z-10 F50")]> ∅))
    (Some "2025-06-01T10:00:00.000Z") None None None 0.

(** ** The expansion *)

(** A text with no whitespace at its head. *)
Definition head_not_space (s : string) : Prop :=
  match s with
  | EmptyString => True
  | String c _ => is_space c = false
  end.

(** A line as [trim] leaves it: no whitespace at either end. *)
Definition trimmed (s : string) : Prop := head_not_space s /\ trimEnd s = s.

(** A parser to run examples with: [M98], then [ P] and the program
    number if there is one. *)
Definition sample_parser (command : string) : option Expander.parsedM98 :=
  match strip_prefix "M98" command with
  | None => Some (Expander.ParsedM98 false None)
  | Some rest =>
      match strip_prefix " P" rest with
      | Some number => Some (Expander.ParsedM98 true (Some (JStr number)))
      | None => Some (Expander.ParsedM98 true None)
      end
  end.

Definition two_moves : string :=
  "G91 G1 X100 F1000" +:+ String newline (String newline "G91 G1 X-100 F1000").

(** ** The execution *)

(** The events of dispatching commands one after the other: each
    command issued, then settled, before the next is issued.  A
    dispatch is the command, its options, and whether the controller
    rejected it. *)
Definition dispatched (sent : list (value * Routes.sendOptions * bool))
  : list Routes.event :=
  flat_map (fun d => [Routes.Issued d.1.1 d.1.2; Routes.Settled d.1.1 d.2]) sent.

(** The commands a list of pipeline results asks to send. *)
Definition commands_of (cmds : list json) : list value :=
  (fun cmd => prop cmd "command") <$> cmds.

Definition is_response (e : Routes.event) : bool :=
  match e with
  | Routes.Responded _ => true
  | _ => false
  end.

Definition is_processed (e : Routes.event) : bool :=
  match e with
  | Routes.Processed _ _ => true
  | _ => false
  end.

(** The envelopes [handleExecute] answers with. *)
Definition not_connected_response : Routes.response :=
  Routes.Response 503 [("error", JStr "CNC controller is not connected")].

Definition bad_id_response : Routes.response :=
  Routes.Response 400 [("error", JStr "Macro ID must be between 9001 and 9999")].

Definition not_found_response : Routes.response :=
  Routes.Response 404 [("error", JStr "Macro not found")].

Definition failure_response (e : error) : Routes.response :=
  Routes.Response 500
    [("error", JStr "Failed to execute macro");
     ("message", JStr (Routes.error_message e))].

Definition refused_response (pr : Routes.processResult) : Routes.response :=
  Routes.Response 400
    [("error", JStr "Failed to execute macro");
     ("message",
      or_else (optional_prop (Routes.result pr) "message") (JStr "Execution failed"))].

Definition success_response (macro : json) (m98Command : string) : Routes.response :=
  Routes.Response 200
    [("success", JBool true);
     ("message",
      JStr ("Macro " +:+ dquote +:+ String_ (prop macro "name")
            +:+ dquote +:+ " executed via " +:+ m98Command))].

Section RoutesSpec.

Context {X : Type}.
Variable cncController : bool.
Variables isConnected lastStatus : X -> value.
Variable stamp : nat -> string.

(** The state with one more event. *)
Definition logged (e : Routes.event) (s : Routes.env X) : Routes.env X :=
  Routes.Env (Routes.files s) (Routes.device s) (Routes.draws s) (Routes.trace s ++ [e]).

Definition connected (s : Routes.env X) : bool :=
  cncController && truthy (isConnected (Routes.device s)).

(** The context [handleExecute] hands to the pipeline. *)
Definition context_of (macroId : string) (macro : json) (s : Routes.env X)
  : Routes.pluginContext :=
  Routes.PluginContext "macro" ("macro-" +:+ stamp (Routes.draws s))
    [("sourceId", Some (JStr "macro"));
     ("macroId", Some (JStr macroId));
     ("macroName", prop macro "name")]
    (lastStatus (Routes.device s)).

(** The options of one dispatch, and the state once its identifier has
    been chosen. *)
Definition prepared (macroId : string) (macroName : value) (contextId : string)
    (cmd : json) (s : Routes.env X) : Routes.sendOptions * Routes.env X :=
  let cmdDisplayCommand :=
    if truthy (prop cmd "displayCommand") then prop cmd "displayCommand"
    else prop cmd "command" in
  let cmdMeta :=
    Routes.merge [("sourceId", Some (JStr "macro"));
                  ("macroId", Some (JStr macroId));
                  ("macroName", macroName)]
      (List.map (fun kv => (kv.1, Some kv.2))
         (Migration.spread (Some (or_else (prop cmd "meta") (JObj []))))) in
  let meta := if (0 <? length cmdMeta)%nat then Some cmdMeta else None in
  if truthy (prop cmd "commandId")
  then (Routes.SendOptions (or_else (prop cmd "commandId") JNull) cmdDisplayCommand meta, s)
  else (Routes.SendOptions (JStr (contextId +:+ "-" +:+ stamp (Routes.draws s)))
          cmdDisplayCommand meta,
        Routes.Env (Routes.files s) (Routes.device s) (S (Routes.draws s)) (Routes.trace s)).

End RoutesSpec.

(** *** A controller and a pipeline *)

(** A controller that keeps the commands it was sent, and a pipeline
    that answers every invocation with three moves. *)
Definition three_moves : list json := [
  JObj [("command", JStr "G91 G1 X100 F1000")];
  JObj [("command", JStr "G91 G1 X-100 F1000"); ("commandId", JStr "second")];
  JObj [("command", JStr "G90"); ("meta", JObj [("sourceId", JStr "plugin")])]
].

Definition sample_process (command : string) (context : Routes.pluginContext)
    (x : list value) : outcome Routes.processResult * list value :=
  (Return (Routes.ProcessResult true three_moves None), x).

Definition sample_sendCommand (command : value) (options : Routes.sendOptions)
    (x : list value) : outcome unit * list value :=
  (Return tt, x ++ [command]).

Definition sample_stamp (n : nat) : string :=
  "1767225600000-" +:+ string_of_Z (Z.of_nat n).

Definition sample_request : Routes.env (list value) :=
  Routes.Env stored_install [] 0 [].

(** ** Further words *)

(** A top-level setting of settings.json, and the keys its keyboard
    bindings bind. *)
Definition setting (k : string) (s : option contents) : value :=
  match s with
  | Some (Doc v) => prop v k
  | _ => None
  end.

Definition binding_keys (s : option contents) : list string :=
  (Migration.spread (setting "keyboardBindings" s)).*1.

(** The records the loop writes for the legacy records from [index]
    on, in their order. *)
Fixpoint migrated_records (now : string) (index : nat) (records : list json)
  : list json :=
  match records with
  | [] => []
  | legacy :: rest =>
      migrated_record now index legacy :: migrated_records now (S index) rest
  end.

(** The value [{...base, ...extra}] gives to a key of [extra]: its last
    binding there. *)
Definition last_binding (k : string) (fs : list (string * json)) : value :=
  assoc k (reverse fs).

(** The fields [updateMacro] sets itself. *)
Definition kept_fields : list string := ["id"; "createdAt"; "updatedAt"].

(** The fields a request can change through the update route. *)
Definition editable_fields : list string := ["name"; "description"; "commands"].

(** The key [deleteMacro] looks for in the keyboard bindings. *)
Definition action_key (existing : json) : string :=
  "Macro:" +:+ String_ (prop existing "id").

(** A settings manager to run examples with: it reads and writes the
    settings file of the installation. *)
Definition sample_readSettings : M value :=
  fun w =>
    match settings w with
    | Some (Doc v) => (Return (Some v), w)
    | Some (Raw text) => (Throw (Error None "Unexpected token in JSON"), w)
    | None => (Return (Some (JObj [])), w)
    end.

Definition sample_saveSettings (s : json) : M unit :=
  modify (set_settings (Some (Doc s))).

(** The migrated installation with shortcuts for its two macros. *)
Definition bound_settings : json := JObj [
  ("theme", JStr "dark");
  ("keyboardBindings", JObj [("Macro:9001", JStr "F1"); ("Macro:9003", JStr "F3")])
].

Definition bound_install : world := set_settings (Some (Doc bound_settings)) stored_install.

(** A text with no newline in it. *)
Fixpoint single_line (s : string) : bool :=
  match s with
  | EmptyString => true
  | String c s' => negb (Ascii.eqb c newline) && single_line s'
  end.

(** A request to create a macro, and the record made of it. *)
Definition park_request : json :=
  JObj [("name", JStr "Park"); ("commands", JStr "G53 G0 X0 Y0")].

Definition park_record (id now : string) : json := JObj [
  ("id", JStr id); ("name", JStr "Park"); ("description", JStr "");
  ("commands", JStr "G53 G0 X0 Y0");
  ("createdAt", JStr now); ("updatedAt", JStr now)
].

(** The stored installation after that request. *)
Definition parked_install : world :=
  set_macros (insert "9002.macro" (Doc (park_record "9002" (sample_iso 0))))
    (tick stored_install).

(** The record 9001 of the stored installation, renamed at the first
    reading of the clock. *)
Definition renamed_record : json := JObj [
  ("id", JStr "9001"); ("name", JStr "Home all"); ("description", JStr "");
  ("commands", JStr "G53 G0 Z0");
  ("createdAt", JStr "2025-06-01T10:00:00.000Z");
  ("updatedAt", JStr (sample_iso 0))
].

(** *** The options of the dispatches *)

(** The tags [handleExecute] puts on every command it sends. *)
Definition macro_tags (macroId : string) (macroName : value) : list (string * value) :=
  [("sourceId", Some (JStr "macro"));
   ("macroId", Some (JStr macroId));
   ("macroName", macroName)].

(** The metadata a command of the pipeline brings along. *)
Definition own_meta (cmd : json) : list (string * json) :=
  Migration.spread (Some (or_else (prop cmd "meta") (JObj []))).

(** Which draw of the stamp names each command: none for a command
    that has an identifier of its own, the next one otherwise. *)
Fixpoint draw_numbers (n : nat) (cmds : list json) : list (option nat) :=
  match cmds with
  | [] => []
  | cmd :: rest =>
      if truthy (prop cmd "commandId") then None :: draw_numbers n rest
      else Some n :: draw_numbers (S n) rest
  end.

(** A dispatch of the command [cmd]: what is sent, how it is shown,
    its metadata (that of the command over the macro tags) and its
    identifier (its own, or the context identifier and a stamp). *)
Definition dispatch_of (stamp : nat -> string) (macroId : string) (macroName : value)
    (contextId : string) (planned : json * option nat)
    (d : value * Routes.sendOptions * bool) : Prop :=
  let cmd := planned.1 in
  d.1.1 = prop cmd "command" /\
  Routes.displayCommand d.1.2
  = (if truthy (prop cmd "displayCommand") then prop cmd "displayCommand"
     else prop cmd "command") /\
  (exists m,
     Routes.meta d.1.2 = Some m /\
     forall k, assoc k m = match last_binding k (own_meta cmd) with
                           | Some v => Some (Some v)
                           | None => assoc k (macro_tags macroId macroName)
                           end) /\
  Routes.commandId d.1.2
  = match planned.2 with
    | None => or_else (prop cmd "commandId") JNull
    | Some n => JStr (contextId +:+ "-" +:+ stamp n)
    end.

(** * Properties *)

(** ** Numbers and their text *)

Section NumberText.

Lemma string_app_nil_r (s : string) : s +:+ "" = s.
Proof. induction s; simpl; congruence. Qed.

Lemma string_app_assoc (a b c : string) : (a +:+ b) +:+ c = a +:+ (b +:+ c).
Proof. induction a; simpl; congruence. Qed.

Lemma leading_digits_string_of_uint (d : uint) (rest : string) :
  no_digit_ahead rest ->
  leading_digits (NilEmpty.string_of_uint d +:+ rest) = d.
Proof.
  intros Hrest. induction d; simpl; [|congruence..].
  destruct rest; simpl in *; [done|]. by rewrite Hrest.
Qed.

Lemma string_of_uint_head (d : uint) :
  d <> Nil ->
  exists c tail, NilEmpty.string_of_uint d = String c tail /\
    is_space c = false /\ c <> "-"%char /\ c <> "+"%char.
Proof. destruct d; [done|..]; intros _; simpl; eauto 10. Qed.

Lemma parseInt_string_of_uint (d : uint) (rest : string) :
  d <> Nil -> no_digit_ahead rest ->
  parseInt (NilEmpty.string_of_uint d +:+ rest) = Some (Z.of_uint d).
Proof.
  intros Hd Hrest.
  assert (Hv : digits_value (NilEmpty.string_of_uint d +:+ rest) = Some (Z.of_uint d)).
  { unfold digits_value. rewrite leading_digits_string_of_uint by done. by destruct d. }
  destruct (string_of_uint_head d Hd) as (c & tail & E & Hsp & Hm & Hp).
  rewrite E in *. unfold parseInt. simpl. rewrite Hsp.
  destruct c as [[] [] [] [] [] [] [] []]; try exact Hv; congruence.
Qed.

(** [parseInt] reads back what [String] prints, whatever follows that is
    no digit. *)
Lemma parseInt_string_of_Z_app (z : Z) (rest : string) :
  no_digit_ahead rest -> parseInt (string_of_Z z +:+ rest) = Some z.
Proof.
  intros Hrest. unfold string_of_Z. rewrite <- (DecimalZ.of_to z) at 2.
  destruct z as [|p|p]; simpl Z.to_int.
  - by apply (parseInt_string_of_uint (D0 Nil)).
  - apply parseInt_string_of_uint; [apply DecimalPos.Unsigned.to_uint_nonnil | done].
  - simpl NilEmpty.string_of_int. unfold parseInt. simpl skip_spaces.
    unfold digits_value. rewrite leading_digits_string_of_uint by done.
    pose proof (DecimalPos.Unsigned.to_uint_nonnil p).
    simpl. by destruct (Pos.to_uint p).
Qed.

Lemma parseInt_string_of_Z (z : Z) : parseInt (string_of_Z z) = Some z.
Proof.
  rewrite <- (string_app_nil_r (string_of_Z z)).
  by apply parseInt_string_of_Z_app.
Qed.

Lemma string_of_Z_inj (a b : Z) : string_of_Z a = string_of_Z b -> a = b.
Proof.
  intros E. apply (f_equal parseInt) in E.
  rewrite !parseInt_string_of_Z in E. congruence.
Qed.

Lemma string_of_Z_nonempty (z : Z) : string_of_Z z <> "".
Proof.
  intros E. apply (f_equal parseInt) in E.
  rewrite parseInt_string_of_Z in E. discriminate.
Qed.

Lemma toLowerCase_app (a b : string) :
  toLowerCase (a +:+ b) = toLowerCase a +:+ toLowerCase b.
Proof. induction a; simpl; congruence. Qed.

Lemma endsWith_app (a p : string) : endsWith (a +:+ p) p = true.
Proof.
  induction a as [|c a IH]; simpl.
  - destruct p; simpl; [done|]. by rewrite Ascii.eqb_refl, String.eqb_refl.
  - rewrite IH. apply orb_true_r.
Qed.

(** The entry name of a record is one that the listing keeps, and it
    tells the identifier. *)
Lemma macro_file_is_macro (id : value) :
  endsWith (toLowerCase (macro_file id)) MACRO_EXT = true.
Proof. unfold macro_file. rewrite toLowerCase_app. apply endsWith_app. Qed.

Lemma parseInt_macro_file (z : Z) :
  parseInt (macro_file (Some (JStr (string_of_Z z)))) = Some z.
Proof. unfold macro_file. simpl. by apply parseInt_string_of_Z_app. Qed.

Lemma macro_file_inj (a b : Z) :
  macro_file (Some (JStr (string_of_Z a))) = macro_file (Some (JStr (string_of_Z b))) ->
  a = b.
Proof.
  intros E. apply (f_equal parseInt) in E.
  rewrite !parseInt_macro_file in E. congruence.
Qed.

End NumberText.

(** ** Migration *)

Section MigrationFacts.

Variable iso : nat -> string.

Abbreviation migrate := (Migration.migrateLegacyMacrosIfNeeded iso).

(** The paths of [migrateLegacyMacrosIfNeeded], one after the other. *)
Lemma migrate_unfold (w : world) :
  migrate w =
    if bool_decide (is_Some (marker w)) then (Return (Migration.not_migrated "marker"), w)
    else if (0 <? length (macro_files w))%nat then
      (Return (Migration.not_migrated "existing"), marked iso (backed_up w))
    else
      match legacy w with
      | None => (Return (Migration.not_migrated "no-legacy"), w)
      | Some (Raw _) => (Return (Migration.not_migrated "read-failed"), w)
      | Some (Doc v) =>
          if (Z.of_nat (length (legacy_records v)) >? ID_MAX - ID_MIN + 1) then
            (Return (Migration.not_migrated "range-exceeded"), backed_up w)
          else
            match Migration.migrateEach (iso (clock (backed_up w))) 0 ∅
                    (legacy_records v) (tick (backed_up w)) with
            | (Throw e, w2) => (Throw e, w2)
            | (Return idMap, w2) =>
                (Return (Migration.Report true None (Some (length (legacy_records v)))),
                 marked iso (Migration.updateKeyboardBindings idMap w2).2)
            end
      end.
Proof.
  unfold Migration.migrateLegacyMacrosIfNeeded, bind at 1 2. simpl.
  destruct (bool_decide (is_Some (marker w))); [done|].
  unfold bind at 1. change (Migration.listMacroFiles w) with (Return (macro_files w), w).
  cbv iota beta.
  destruct (0 <? length (macro_files w))%nat.
  - unfold bind, gets, Migration.backupLegacyMacros, modify, backed_up, ret,
      Migration.writeMigratedMarker, Migration.now, marked.
    destruct (backup w) eqn:Eb, (legacy w) eqn:El; simpl; rewrite ?Eb, ?El; try done.
    all: rewrite ?bool_decide_true, ?bool_decide_false by (eauto || by intros [? ?]);
      simpl; by rewrite ?Eb, ?El.
  - unfold bind at 1. simpl.
    destruct (legacy w) as [[text|v]|] eqn:El.
    + rewrite bool_decide_true by eauto. simpl. unfold bind at 1.
      unfold Migration.readLegacyMacros, gets. by rewrite El.
    + rewrite bool_decide_true by eauto. simpl. unfold bind at 1.
      unfold Migration.readLegacyMacros, gets. rewrite El.
      assert (E : match v with JArr parsed => Some parsed | _ => Some [] end
                  = Some (legacy_records v)) by (by destruct v).
      rewrite E. unfold bind at 1.
      change (Migration.backupLegacyMacros w) with (Return tt, backed_up w).
      cbv iota beta.
      destruct (Z.of_nat (length (legacy_records v)) >? ID_MAX - ID_MIN + 1); [done|].
      unfold bind at 1. unfold Migration.now at 1. cbv iota beta.
      unfold bind at 1.
      destruct (Migration.migrateEach _ _ _ _ _) as [[idMap|e] w2]; [|done].
      unfold bind at 1.
      destruct (Migration.updateKeyboardBindings idMap w2) as [[[]|e] w3] eqn:Eu.
      * reflexivity.
      * exfalso. revert Eu. unfold Migration.updateKeyboardBindings.
        repeat case_match; discriminate.
    + by rewrite bool_decide_false by (by intros [? ?]).
Qed.

(** *** Keyboard bindings *)

Lemma set_field_fresh {V} (k : string) (v v' : V) (pre rest : list (string * V)) :
  k ∉ pre.*1 ->
  set_field k v' (pre ++ (k, v) :: rest) = pre ++ (k, v') :: rest.
Proof.
  induction pre as [|[k0 v0] pre IH]; simpl; intros Hk.
  - by rewrite String.eqb_refl.
  - apply not_elem_of_cons in Hk as [Hne Hk].
    destruct (String.eqb_spec k k0) as [->|_]; [done|].
    by rewrite IH.
Qed.

Lemma rebind_spec (idMap : gmap string string) (pre rest : list (string * json))
    (k : string) (v : json) (changed : bool) :
  (forall old new, idMap !! old = Some new -> new <> "") ->
  k ∉ pre.*1 ->
  Migration.rebind idMap (pre ++ (k, v) :: rest, changed) (k, v)
  = (pre ++ (k, rewrite_action idMap v) :: rest, changed || rewritable idMap v).
Proof.
  intros Hne Hk. unfold Migration.rebind, rewrite_action, rewritable.
  cbn [fst snd].
  destruct v; try by rewrite orb_false_r.
  destruct (strip_prefix _ _) as [oldId|]; [|by rewrite orb_false_r].
  destruct (idMap !! oldId) as [newId|] eqn:E.
  - rewrite bool_decide_true by eauto. rewrite orb_true_r.
    destruct (String.eqb_spec newId "") as [->|_]; [by apply Hne in E|].
    by rewrite set_field_fresh.
  - rewrite bool_decide_false by (by intros [? ?]). by rewrite orb_false_r.
Qed.

Lemma fold_rebind (idMap : gmap string string) (rest pre : list (string * json))
    (changed : bool) :
  (forall old new, idMap !! old = Some new -> new <> "") ->
  NoDup (pre ++ rest).*1 ->
  fold_left (Migration.rebind idMap) rest (pre ++ rest, changed)
  = (pre ++ rewrite_bindings idMap rest,
     changed || existsb (fun entry => rewritable idMap entry.2) rest).
Proof.
  intros Hne. revert pre changed.
  induction rest as [|[k v] rest IH]; intros pre changed Hnd; simpl.
  - by rewrite orb_false_r.
  - rewrite fmap_app in Hnd. apply NoDup_app in Hnd as Hnd'.
    destruct Hnd' as (_ & Hdisj & _).
    rewrite rebind_spec; [|done|].
    2:{ intros Hin. apply (Hdisj k Hin). simpl. apply list_elem_of_here. }
    specialize (IH (pre ++ [(k, rewrite_action idMap v)])
                  (changed || rewritable idMap v)).
    rewrite <- !app_assoc in IH. simpl in IH. rewrite IH.
    + by rewrite orb_assoc.
    + by rewrite fmap_app.
Qed.

(** With no identifier to map, nothing is rebound. *)
Lemma fold_rebind_empty (entries : list (string * json)) acc :
  fold_left (Migration.rebind ∅) entries acc = acc.
Proof.
  revert acc. induction entries as [|e entries IH]; intros acc; simpl; [done|].
  rewrite IH. unfold Migration.rebind. destruct e.2; try done.
  destruct (strip_prefix _ _); [|done]. by rewrite lookup_empty.
Qed.

Lemma updateKeyboardBindings_empty (w : world) :
  Migration.updateKeyboardBindings ∅ w = (Return tt, w).
Proof.
  unfold Migration.updateKeyboardBindings.
  destruct (settings w) as [[|[]]|]; try done.
  destruct (negb _); [done|]. by rewrite fold_rebind_empty.
Qed.

(** What [updateKeyboardBindings] leaves in settings.json, when the
    bindings have one entry per key. *)
Lemma updateKeyboardBindings_spec (idMap : gmap string string) (w : world)
    (fs : list (string * json)) (kb : json) :
  (forall old new, idMap !! old = Some new -> new <> "") ->
  settings w = Some (Doc (JObj fs)) ->
  assoc "keyboardBindings" fs = Some kb ->
  truthy (Some kb) = true ->
  NoDup (Migration.spread (Some kb)).*1 ->
  Migration.updateKeyboardBindings idMap w =
    (Return tt,
     if existsb (fun entry => rewritable idMap entry.2) (Migration.spread (Some kb))
     then set_settings
            (Some (Doc (JObj (set_field "keyboardBindings"
               (JObj (rewrite_bindings idMap (Migration.spread (Some kb)))) fs)))) w
     else w).
Proof.
  intros Hne Hs Hkb Ht Hnd. unfold Migration.updateKeyboardBindings.
  rewrite Hs. cbn [prop]. rewrite Hkb, Ht. cbn [negb].
  pose proof (fold_rebind idMap (Migration.spread (Some kb)) [] false Hne Hnd) as E.
  rewrite !app_nil_l in E. cbn [orb] in E. rewrite E. by destruct (existsb _ _).
Qed.

(** Settings that are absent, unreadable, or without bindings stay as
    they are. *)
Lemma updateKeyboardBindings_skip (idMap : gmap string string) (w : world) :
  match settings w with
  | Some (Doc (JObj fs)) => truthy (assoc "keyboardBindings" fs) = false
  | _ => True
  end ->
  Migration.updateKeyboardBindings idMap w = (Return tt, w).
Proof.
  unfold Migration.updateKeyboardBindings.
  destruct (settings w) as [[|[]]|]; try done.
  cbn [prop]. by intros ->.
Qed.

(** *** The loop over the legacy records *)

Lemma set_macros_id (w : world) : set_macros (fun dir => dir) w = w.
Proof. by destruct w. Qed.

Lemma migrateEach_ok (now : string) (records : list json) :
  forall (index : nat) (idMap : gmap string string) (w : world),
  Forall (fun legacy => legacy <> JNull) records ->
  Migration.migrateEach now index idMap records w
  = (Return (id_map_from index idMap records),
     set_macros (written_from now index records) w).
Proof.
  induction records as [|legacy rest IH]; intros index idMap w Hnn.
  - simpl. unfold ret. by rewrite set_macros_id.
  - apply Forall_cons in Hnn as [Hl Hrest].
    transitivity (Migration.migrateEach now (S index)
      (<[String_ (prop legacy "id") := new_id index]> idMap) rest
      (set_macros (insert (new_file index) (Doc (migrated_record now index legacy))) w)).
    + by destruct legacy.
    + by rewrite IH.
Qed.

Lemma migrateEach_throw (now : string) (done rest : list json) :
  forall (index : nat) (idMap : gmap string string) (w : world),
  Forall (fun legacy => legacy <> JNull) done ->
  exists e,
    Migration.migrateEach now index idMap (done ++ JNull :: rest) w
    = (Throw e, set_macros (written_from now index done) w).
Proof.
  induction done as [|legacy done IH]; intros index idMap w Hnn.
  - eexists. simpl. unfold throw. by rewrite set_macros_id.
  - apply Forall_cons in Hnn as [Hl Hrest].
    destruct (IH (S index) (<[String_ (prop legacy "id") := new_id index]> idMap)
      (set_macros (insert (new_file index) (Doc (migrated_record now index legacy))) w)
      Hrest) as [e He].
    exists e. etransitivity; [|exact He]. by destruct legacy.
Qed.

Lemma split_at_null (records : list json) :
  Forall (fun legacy => legacy <> JNull) records \/
  exists done rest,
    records = done ++ JNull :: rest /\ Forall (fun legacy => legacy <> JNull) done.
Proof.
  induction records as [|legacy records IH]; [by left|].
  assert (legacy = JNull \/ legacy <> JNull) as [->|Hl]
    by (destruct legacy; (by left) || (by right)).
  - right. by exists [], records.
  - destruct IH as [IH|(done & rest & -> & Hd)].
    + left. by constructor.
    + right. exists (legacy :: done), rest. split; [done|]. by constructor.
Qed.

Lemma new_file_inj (a b : nat) : new_file a = new_file b -> a = b.
Proof. unfold new_file, new_id. intros E%macro_file_inj. lia. Qed.

Lemma written_from_other (now : string) (records : list json) :
  forall (index : nat) (dir : gmap string contents) (f : string),
  (forall k, (k < length records)%nat -> f <> new_file (index + k)) ->
  written_from now index records dir !! f = dir !! f.
Proof.
  induction records as [|legacy rest IH]; intros index dir f Hf; [done|].
  simpl. rewrite IH.
  - apply lookup_insert_ne. intros E. apply (Hf 0%nat); [simpl; lia|].
    by rewrite Nat.add_0_r.
  - intros k Hk. replace (S index + k)%nat with (index + S k)%nat by lia.
    apply Hf. simpl. lia.
Qed.

Lemma written_from_lookup (now : string) (records : list json) :
  forall (index : nat) (dir : gmap string contents) (k : nat) (legacy : json),
  records !! k = Some legacy ->
  written_from now index records dir !! new_file (index + k)
  = Some (Doc (migrated_record now (index + k) legacy)).
Proof.
  induction records as [|first rest IH]; intros index dir k legacy Hk; [done|].
  destruct k as [|k]; simpl in *.
  - injection Hk as ->. rewrite Nat.add_0_r. rewrite written_from_other.
    + apply lookup_insert_eq.
    + intros k _ E%new_file_inj. lia.
  - replace (index + S k)%nat with (S index + k)%nat by lia. by apply IH.
Qed.

(** *** The listing *)

Lemma elem_of_macro_files (w : world) (f : string) :
  f ∈ macro_files w <-> is_Some (macros w !! f) /\ Storage.isMacroFile f = true.
Proof.
  unfold macro_files. rewrite list_elem_of_filter, list_elem_of_fmap. split.
  - intros (Hf & [k c] & -> & Hin%elem_of_map_to_list). simpl in *. eauto.
  - intros ([c Hc] & Hf). split; [done|].
    exists (f, c). split; [done|]. by apply elem_of_map_to_list.
Qed.

Lemma NoDup_macro_files (w : world) : NoDup (macro_files w).
Proof. apply NoDup_filter, NoDup_fst_map_to_list. Qed.

Lemma macro_files_nil (w : world) (f : string) :
  macro_files w = [] -> is_Some (macros w !! f) -> Storage.isMacroFile f = false.
Proof.
  intros Hnil Hf. destruct (Storage.isMacroFile f) eqn:E; [|done].
  assert (f ∈ macro_files w) as Hin by (by apply elem_of_macro_files).
  rewrite Hnil in Hin. by apply not_elem_of_nil in Hin.
Qed.

Lemma new_file_is_macro (index : nat) : Storage.isMacroFile (new_file index) = true.
Proof. apply macro_file_is_macro. Qed.

(** After the loop, an empty listing has become the files [9001.macro],
    [9002.macro], ... of the records, and nothing else. *)
Lemma macro_files_written (now : string) (records : list json) (w : world) :
  macro_files w = [] ->
  macro_files (set_macros (written_from now 0 records) w)
  ≡ₚ new_file <$> seq 0 (length records).
Proof.
  intros Hnil. apply NoDup_Permutation.
  - apply NoDup_macro_files.
  - apply NoDup_fmap_2_strong, NoDup_seq.
    intros a b _ _. apply new_file_inj.
  - intros f. rewrite elem_of_macro_files, list_elem_of_fmap. simpl. split.
    + intros (Hsome & Hf).
      destruct (decide (f ∈ new_file <$> seq 0 (length records))) as [Hin|Hno].
      * by apply list_elem_of_fmap in Hin.
      * rewrite written_from_other in Hsome.
        -- by rewrite (macro_files_nil w f Hnil Hsome) in Hf.
        -- intros k Hk ->. apply Hno, list_elem_of_fmap.
           exists k. split; [done|]. apply elem_of_seq. lia.
    + intros (k & -> & Hk%elem_of_seq). split; [|apply new_file_is_macro].
      destruct (lookup_lt_is_Some_2 records k) as [legacy Hl]; [lia|].
      rewrite (written_from_lookup now records 0 _ k legacy Hl). eauto.
Qed.

(** *** The identifier map *)

Lemma id_map_from_other (records : list json) :
  forall (index : nat) (idMap : gmap string string) (old : string),
  (forall legacy, legacy ∈ records -> String_ (prop legacy "id") <> old) ->
  id_map_from index idMap records !! old = idMap !! old.
Proof.
  induction records as [|legacy rest IH]; intros index idMap old Hold; [done|].
  simpl. rewrite IH.
  - apply lookup_insert_ne. apply Hold, list_elem_of_here.
  - intros l Hl. apply Hold. by apply list_elem_of_further.
Qed.

(** The last record that carries an old identifier decides what it
    maps to. *)
Lemma id_map_from_last (records : list json) :
  forall (index : nat) (idMap : gmap string string) (k : nat) (legacy : json),
  records !! k = Some legacy ->
  (forall j later, (k < j)%nat -> records !! j = Some later ->
     String_ (prop later "id") <> String_ (prop legacy "id")) ->
  id_map_from index idMap records !! String_ (prop legacy "id")
  = Some (new_id (index + k)).
Proof.
  induction records as [|first rest IH]; intros index idMap k legacy Hk Hlast; [done|].
  destruct k as [|k]; simpl in *.
  - injection Hk as ->. rewrite Nat.add_0_r. rewrite id_map_from_other.
    + apply lookup_insert_eq.
    + intros later [j Hj]%list_elem_of_lookup. apply (Hlast (S j)); [lia|done].
  - replace (index + S k)%nat with (S index + k)%nat by lia.
    apply IH; [done|]. intros j later Hj Hl. apply (Hlast (S j)); [lia|done].
Qed.

Lemma id_map_from_values (records : list json) :
  forall (index : nat) (idMap : gmap string string) (old new : string),
  id_map_from index idMap records !! old = Some new ->
  idMap !! old = Some new \/ exists k, new = new_id k.
Proof.
  induction records as [|legacy rest IH]; intros index idMap old new E; [by left|].
  simpl in E. apply IH in E as [E|E]; [|by right].
  destruct (decide (String_ (prop legacy "id") = old)) as [Heq|Hne].
  - rewrite Heq, lookup_insert_eq in E. right. exists index. congruence.
  - rewrite lookup_insert_ne in E by done. by left.
Qed.

Lemma id_map_new_nonempty (records : list json) (old new : string) :
  id_map_from 0 ∅ records !! old = Some new -> new <> "".
Proof.
  intros [E|[k ->]]%id_map_from_values; [by rewrite lookup_empty in E|].
  apply string_of_Z_nonempty.
Qed.

(** *** What the steps leave alone *)

Lemma backed_up_frame (w : world) :
  macros (backed_up w) = macros w /\ marker (backed_up w) = marker w /\
  legacy (backed_up w) = legacy w /\ settings (backed_up w) = settings w /\
  clock (backed_up w) = clock w.
Proof.
  unfold backed_up. destruct (backup w) eqn:Eb; [done|].
  destruct (legacy w) eqn:El; by repeat split.
Qed.

Lemma backed_up_backup (w : world) :
  backup (backed_up w) = match backup w with Some b => Some b | None => legacy w end.
Proof. unfold backed_up. destruct (backup w) eqn:E, (legacy w); simpl; congruence. Qed.

Lemma backed_up_idem (w : world) : backed_up (backed_up w) = backed_up w.
Proof.
  unfold backed_up at 1. rewrite backed_up_backup.
  destruct (backed_up_frame w) as (_ & _ & -> & _).
  destruct (backup w) eqn:Eb; [done|]. destruct (legacy w) eqn:El; [done|].
  unfold backed_up. by rewrite Eb, El.
Qed.

Lemma updateKeyboardBindings_frame (idMap : gmap string string) (w : world) :
  exists s, Migration.updateKeyboardBindings idMap w = (Return tt, set_settings s w).
Proof.
  assert (Hid : Migration.updateKeyboardBindings idMap w = (Return tt, w) ->
    exists s, Migration.updateKeyboardBindings idMap w = (Return tt, set_settings s w)).
  { intros ->. exists (settings w). by destruct w. }
  unfold Migration.updateKeyboardBindings in *.
  destruct (settings w) as [[|[]]|]; try (by apply Hid).
  destruct (negb _); [by apply Hid|].
  destruct (fold_left _ _ _) as [updated []]; simpl in *; [by eexists|by apply Hid].
Qed.

Lemma updateKeyboardBindings_settings (idMap : gmap string string) (w : world) :
  (forall old new, idMap !! old = Some new -> new <> "") ->
  bindings_well_formed (settings w) ->
  settings (Migration.updateKeyboardBindings idMap w).2
  = rebound_settings idMap (settings w).
Proof.
  intros Hne Hwf. unfold rebound_settings, bindings_well_formed in *.
  destruct (settings w) as [[text|v]|] eqn:Es;
    try (by rewrite updateKeyboardBindings_skip; rewrite ?Es).
  destruct v as [| | | | |fs];
    try (by rewrite updateKeyboardBindings_skip; rewrite ?Es).
  unfold keyboard_bindings in *.
  destruct (assoc "keyboardBindings" fs) as [kb|] eqn:Ekb.
  - destruct (truthy (Some kb)) eqn:Et.
    + rewrite (updateKeyboardBindings_spec idMap w fs kb) by done.
      by destruct (existsb _ _).
    + rewrite updateKeyboardBindings_skip by (by rewrite Es, Ekb).
      assert (Migration.spread (Some kb) = []) as ->.
      { destruct kb as [|[]|z| [] | |]; try done. }
      done.
  - by rewrite updateKeyboardBindings_skip by (by rewrite Es, Ekb).
Qed.

(** *** A legacy file of records *)

(** [a || b] is [a] when [a] is truthy, and [b] when [a] is missing. *)
Lemma or_else_truthy (v default : json) :
  truthy (Some v) = true -> or_else (Some v) default = v.
Proof. unfold or_else. by intros ->. Qed.

Lemma or_else_missing (default : json) : or_else None default = default.
Proof. reflexivity. Qed.


(** *** The paths that migrate nothing *)

Lemma migrate_with_marker (w : world) :
  is_Some (marker w) ->
  migrate w = (Return (Migration.not_migrated "marker"), w).
Proof. intros Hm. rewrite migrate_unfold. by rewrite bool_decide_true. Qed.

Lemma migrate_with_files (w : world) :
  marker w = None -> macro_files w <> [] ->
  migrate w = (Return (Migration.not_migrated "existing"), marked iso (backed_up w)).
Proof.
  intros Hm Hf. rewrite migrate_unfold, Hm.
  rewrite bool_decide_false by (by intros [? ?]).
  by destruct (macro_files w).
Qed.

(** C2, as the code has it.  With no marker and no per-record file, a
    legacy file that [JSON.parse] rejects makes the migration return
    [{migrated: false, reason: 'read-failed'}] and write nothing, the
    marker included; a legacy file that parses to something that is no
    array is read as the empty array: the migration returns
    [{migrated: true, count: 0}] and writes the marker (and the backup
    copy, if there was none), leaving the directory and the settings as
    they were. *)
Theorem migration_of_unreadable_legacy (w : world) (c : contents) :
  marker w = None ->
  macro_files w = [] ->
  legacy w = Some c ->
  match c with
  | Raw _ => migrate w = (Return (Migration.not_migrated "read-failed"), w)
  | Doc v =>
      (forall items, v <> JArr items) ->
      exists w',
        migrate w = (Return (Migration.Report true None (Some 0%nat)), w') /\
        is_Some (marker w') /\
        macros w' = macros w /\ settings w' = settings w /\
        backup w' = match backup w with Some b => Some b | None => Some (Doc v) end
  end.
Proof.
  intros Hm Hf Hl. rewrite migrate_unfold, Hm, Hf, Hl.
  rewrite bool_decide_false by (by intros [? ?]).
  destruct c as [text|v]; [done|]. intros Hv.
  assert (legacy_records v = []) as -> by (destruct v; try done; by edestruct Hv).
  cbn. rewrite updateKeyboardBindings_empty.
  destruct (backed_up_frame w) as (Bmacros & _ & _ & Bsettings & _).
  eexists. split; [done|]. cbn. rewrite Bmacros, Bsettings, backed_up_backup, Hl.
  eauto 6.
Qed.

(** C4, as the code has it.  With no marker and no per-record file, a
    legacy file that holds an array of more than 999 records makes the
    migration return [{migrated: false, reason: 'range-exceeded'}];
    the marker, the directory and the settings are not written; the one
    write is the backup copy of the legacy file, made before the count
    is checked when there is no backup yet. *)
Theorem migration_range_exceeded (w : world) (records : list json) :
  marker w = None ->
  macro_files w = [] ->
  legacy w = Some (Doc (JArr records)) ->
  (length records > 999)%nat ->
  exists w',
    migrate w = (Return (Migration.not_migrated "range-exceeded"), w') /\
    marker w' = None /\
    macros w' = macros w /\
    settings w' = settings w /\
    legacy w' = legacy w /\
    clock w' = clock w /\
    backup w' = match backup w with
                | Some b => Some b
                | None => Some (Doc (JArr records))
                end.
Proof.
  intros Hm Hf Hl Hn. rewrite migrate_unfold, Hm, Hf, Hl.
  rewrite bool_decide_false by (by intros [? ?]).
  cbn [length Nat.ltb Nat.leb legacy_records].
  destruct (Z.gtb_spec (Z.of_nat (length records)) (ID_MAX - ID_MIN + 1)) as [_|Hle];
    [|unfold ID_MAX, ID_MIN in Hle; lia].
  destruct (backed_up_frame w) as (Bmacros & Bmarker & Blegacy & Bsettings & Bclock).
  eexists. split; [done|].
  rewrite Bmarker, Bmacros, Bsettings, Blegacy, Bclock, backed_up_backup, Hl.
  by repeat split.
Qed.

(** *** Two calls in a row *)

Lemma macro_files_same (w w' : world) :
  macros w' = macros w -> macro_files w' = macro_files w.
Proof. unfold macro_files. by intros ->. Qed.

Lemma written_from_nonempty (now : string) (legacy : json) (done : list json)
    (w : world) :
  macro_files (set_macros (written_from now 0 (legacy :: done)) w) <> [].
Proof.
  intros Hnil.
  assert (new_file 0 ∈ macro_files (set_macros (written_from now 0 (legacy :: done)) w))
    as Hin.
  { apply elem_of_macro_files. split; [|apply new_file_is_macro].
    cbn [macros set_macros].
    rewrite (written_from_lookup now (legacy :: done) 0 _ 0 legacy); eauto. }
  rewrite Hnil in Hin. by apply not_elem_of_nil in Hin.
Qed.

(** C3, as the code has it.  For every initial state, the second of
    two calls in a row leaves the per-record files as the first call
    left them.  It returns [{migrated: false, reason: 'marker'}] when
    the first call migrated or returned [marker] or [existing]; when
    the first call returned [no-legacy], [read-failed] or
    [range-exceeded] the marker has not been written, and the second
    call returns the same report again. *)
Theorem migration_twice (w : world) :
  let first := migrate w in
  let second := migrate first.2 in
  macros second.2 = macros first.2 /\
  match first.1 with
  | Return r =>
      if settled r then second.1 = Return (Migration.not_migrated "marker")
      else second.1 = first.1 /\ marker second.2 = None
  | Throw _ => True
  end.
Proof.
  cbn zeta.
  rewrite (migrate_unfold w).
  destruct (marker w) as [t|] eqn:Hm.
  { rewrite bool_decide_true by eauto. cbn [fst snd].
    rewrite migrate_with_marker by (rewrite Hm; eauto). by cbn. }
  rewrite bool_decide_false by (by intros [? ?]).
  destruct (macro_files w) as [|f fs] eqn:Hf; cbn [length Nat.ltb Nat.leb].
  2:{ cbn [fst snd]. rewrite migrate_with_marker by (by eexists). by cbn. }
  destruct (legacy w) as [[text|v]|] eqn:Hl.
  all: destruct (backed_up_frame w) as (Bmacros & Bmarker & Blegacy & Bsettings & Bclock).
  - cbn [fst snd]. rewrite migrate_unfold, Hm, Hf, Hl.
    rewrite bool_decide_false by (by intros [? ?]). by cbn.
  - destruct (Z.of_nat (length (legacy_records v)) >? ID_MAX - ID_MIN + 1) eqn:Hn.
    + cbn [fst snd]. rewrite migrate_unfold, Bmarker, Hm, Blegacy, Hl.
      rewrite (macro_files_same w (backed_up w) Bmacros), Hf, Hn.
      rewrite bool_decide_false by (by intros [? ?]).
      cbn. by rewrite backed_up_idem, Bmacros, Bmarker.
    + destruct (split_at_null (legacy_records v))
        as [Hnn|(done & rest & Hrec & Hnn)].
      * rewrite migrateEach_ok by done. cbn [fst snd].
        rewrite migrate_with_marker by (by eexists). by cbn.
      * rewrite Hrec.
        destruct (migrateEach_throw (iso (clock (backed_up w))) done rest 0 ∅
                    (tick (backed_up w)) Hnn) as [e ->].
        cbn [fst snd]. split; [|done].
        destruct done as [|legacy done].
        -- cbn [written_from]. rewrite set_macros_id.
           rewrite migrate_unfold. cbn [marker tick legacy].
           rewrite Bmarker, Hm, Blegacy, Hl, Hn.
           rewrite (macro_files_same w (tick (backed_up w))) by (cbn; by rewrite Bmacros).
           rewrite Hf, Hrec.
           rewrite bool_decide_false by (by intros [? ?]).
           cbn [length Nat.ltb Nat.leb app Migration.migrateEach].
           unfold throw. cbn [snd macros tick].
           by destruct (backed_up_frame (tick (backed_up w))) as (-> & _).
        -- rewrite migrate_with_files.
           ++ cbn [snd marked set_marker tick macros].
              by destruct (backed_up_frame (set_macros
                 (written_from (iso (clock (backed_up w))) 0 (legacy :: done))
                 (tick (backed_up w)))) as (-> & _).
           ++ cbn [set_macros marker tick]. by rewrite Bmarker.
           ++ apply written_from_nonempty.
  - cbn [fst snd]. rewrite migrate_unfold, Hm, Hf, Hl.
    rewrite bool_decide_false by (by intros [? ?]). by cbn.
Qed.

End MigrationFacts.

(** *** The migration on sample installations *)


(** C2, counterexample.  A legacy file that holds the object [{}], a
    document that is no array: the migration does not return
    [read-failed], and it writes the marker. *)
Lemma non_array_legacy_is_migrated :
  let w := World ∅ None (Some (Doc (JObj []))) None None 0 in
  let after := Migration.migrateLegacyMacrosIfNeeded sample_iso w in
  marker w = None /\ macro_files w = [] /\
  after.1 = Return (Migration.Report true None (Some 0%nat)) /\
  after.1 <> Return (Migration.not_migrated "read-failed") /\
  marker after.2 = Some (sample_iso 1).
Proof. vm_compute. by repeat split. Qed.

Lemma migration_of_unreadable_legacy_witness :
  let w := World ∅ None (Some (Raw "[{")) None None 0 in
  Migration.migrateLegacyMacrosIfNeeded sample_iso w
  = (Return (Migration.not_migrated "read-failed"), w).
Proof.
  exact (migration_of_unreadable_legacy sample_iso
           (World ∅ None (Some (Raw "[{")) None None 0) (Raw "[{")
           eq_refl eq_refl eq_refl).
Defined.

(** C4, counterexample.  A legacy file of 1000 records and no backup:
    the migration reports [range-exceeded] and has written
    macros.json.backup. *)
Lemma range_exceeded_writes_backup :
  let w := World ∅ None (Some (Doc (JArr (replicate 1000 (JObj []))))) None None 0 in
  let after := Migration.migrateLegacyMacrosIfNeeded sample_iso w in
  marker w = None /\ macro_files w = [] /\ backup w = None /\
  after.1 = Return (Migration.not_migrated "range-exceeded") /\
  backup after.2 = legacy w /\
  after.2 <> w.
Proof.
  vm_compute. repeat split. discriminate.
Qed.

Lemma migration_range_exceeded_witness :
  let w := World ∅ None (Some (Doc (JArr (replicate 1000 (JObj []))))) None None 0 in
  exists w',
    Migration.migrateLegacyMacrosIfNeeded sample_iso w
    = (Return (Migration.not_migrated "range-exceeded"), w') /\
    marker w' = None /\ macros w' = ∅ /\ settings w' = None /\
    backup w' = Some (Doc (JArr (replicate 1000 (JObj [])))).
Proof.
  destruct (migration_range_exceeded sample_iso
              (World ∅ None (Some (Doc (JArr (replicate 1000 (JObj []))))) None None 0)
              (replicate 1000 (JObj [])))
    as (w' & Hrun & Hmarker & Hmacros & Hsettings & _ & _ & Hbackup).
  - reflexivity.
  - reflexivity.
  - reflexivity.
  - rewrite length_replicate. lia.
  - exists w'. by repeat split.
Defined.

(** C3, counterexample.  On an installation with no file at all the
    first call returns [no-legacy] and writes no marker, and so does the
    second. *)
Lemma second_call_without_marker :
  let first := Migration.migrateLegacyMacrosIfNeeded sample_iso empty_world in
  let second := Migration.migrateLegacyMacrosIfNeeded sample_iso first.2 in
  second.1 = Return (Migration.not_migrated "no-legacy") /\
  second.1 <> Return (Migration.not_migrated "marker").
Proof. vm_compute. by split. Qed.

(** ** Storage *)

Section StorageFacts.

Variable iso : nat -> string.
Variable loadedAt : string * string.

Lemma normalizeMacroId_idem (z : Z) :
  Storage.normalizeMacroId (Some (JStr (string_of_Z z))) = Some (string_of_Z z).
Proof. unfold Storage.normalizeMacroId. simpl. by rewrite parseInt_string_of_Z. Qed.

Lemma isValidMacroId_string_of_Z (z : Z) :
  Storage.isValidMacroId (Some (JStr (string_of_Z z)))
  = (ID_MIN <=? z) && (z <=? ID_MAX).
Proof. unfold Storage.isValidMacroId. simpl. by rewrite parseInt_string_of_Z. Qed.

(** What [getMacro] does with an identifier that reads as the integer
    [z]. *)
Lemma getMacro_of_number (raw : value) (z : Z) (w : world) :
  parseInt (String_ raw) = Some z ->
  Storage.getMacro raw w =
    if (ID_MIN <=? z) && (z <=? ID_MAX)
    then Storage.parseMacroFile (macro_file (Some (JStr (string_of_Z z)))) w
    else None.
Proof.
  intros Hz. unfold Storage.getMacro, Storage.normalizeMacroId. rewrite Hz.
  rewrite isValidMacroId_string_of_Z.
  destruct (String.eqb_spec (string_of_Z z) "") as [E|_];
    [by apply string_of_Z_nonempty in E|].
  cbn [orb]. destruct ((ID_MIN <=? z) && (z <=? ID_MAX)); [|done].
  cbn [negb]. unfold Storage.getMacroPath, Storage.parseMacroFile.
  by destruct (macros w !! _).
Qed.

Lemma getMacro_not_a_number (raw : value) (w : world) :
  parseInt (String_ raw) = None -> Storage.getMacro raw w = None.
Proof. intros Hz. unfold Storage.getMacro, Storage.normalizeMacroId. by rewrite Hz. Qed.

(** C10.  For every raw identifier, [getMacro(raw)] is
    [getMacro(normalizeMacroId(raw))] when the normalized identifier is
    not [null], and [null] when it is; so two identifiers that parse to
    the same integer resolve to the same record, and the texts
    [09001], [ 9001], [9001.5] and [9001] all normalize to [9001]. *)
Theorem getMacro_normalizes (raw : value) (w : world) :
  Storage.getMacro raw w =
    match Storage.normalizeMacroId raw with
    | Some normalized => Storage.getMacro (Some (JStr normalized)) w
    | None => None
    end
  /\ (forall other : value,
        parseInt (String_ raw) = parseInt (String_ other) ->
        Storage.getMacro raw w = Storage.getMacro other w)
  /\ Storage.normalizeMacroId (Some (JStr "09001")) = Some "9001"
  /\ Storage.normalizeMacroId (Some (JStr " 9001")) = Some "9001"
  /\ Storage.normalizeMacroId (Some (JStr "9001.5")) = Some "9001"
  /\ Storage.normalizeMacroId (Some (JStr "9001")) = Some "9001".
Proof.
  split; [|split; [|by vm_compute]].
  - destruct (parseInt (String_ raw)) as [z|] eqn:Hz.
    + unfold Storage.normalizeMacroId at 1. rewrite Hz.
      rewrite (getMacro_of_number raw z w Hz).
      by rewrite (getMacro_of_number (Some (JStr (string_of_Z z))) z w)
        by apply parseInt_string_of_Z.
    + unfold Storage.normalizeMacroId. rewrite Hz.
      by apply getMacro_not_a_number.
  - intros other Hsame. destruct (parseInt (String_ raw)) as [z|] eqn:Hz.
    + by rewrite (getMacro_of_number raw z w Hz),
        (getMacro_of_number other z w (eq_sym Hsame)).
    + by rewrite (getMacro_not_a_number raw w Hz),
        (getMacro_not_a_number other w (eq_sym Hsame)).
Qed.

(** *** Reading the directory *)

Lemma parseMacroFile_eq (f : string) (w : world) :
  Storage.parseMacroFile f w =
    match macros w !! f with
    | Some (Doc parsed) => if accepted parsed then Some parsed else None
    | _ => None
    end.
Proof.
  unfold Storage.parseMacroFile, accepted.
  destruct (macros w !! f) as [[|parsed]|]; try done.
  destruct (truthy (Some parsed)), (Storage.is_object parsed),
    (truthy (prop parsed "id")), (Storage.isValidMacroId (prop parsed "id")); done.
Qed.

Lemma parseMacroFile_Some (f : string) (w : world) (m : json) :
  Storage.parseMacroFile f w = Some m <->
  macros w !! f = Some (Doc m) /\ accepted m = true.
Proof.
  rewrite parseMacroFile_eq. destruct (macros w !! f) as [[|parsed]|].
  - split; [done|]. by intros [? _].
  - destruct (accepted parsed) eqn:E.
    + split; [by intros [= <-]|]. by intros [[= <-] _].
    + split; [done|]. intros [[= <-] ?]. congruence.
  - split; [done|]. by intros [? _].
Qed.

Lemma accepted_valid_id (m : json) : accepted m = true -> valid_id m.
Proof.
  unfold accepted, valid_id, Storage.isValidMacroId, in_range.
  intros (((_ & _)%andb_prop & Hid)%andb_prop & Hv)%andb_prop.
  split; [done|].
  destruct (parseInt _) as [n|]; [|done]. exists n. split; [done|].
  apply andb_prop in Hv as [?%Z.leb_le ?%Z.leb_le]. lia.
Qed.

Lemma id_number_valid (m : json) (n : Z) :
  parseInt (String_ (prop m "id")) = Some n -> Storage.id_number m = n.
Proof. unfold Storage.id_number. by intros ->. Qed.

Lemma elem_of_records_of (w : world) (m : json) :
  m ∈ records_of w <->
  exists f, Storage.isMacroFile f = true /\ macros w !! f = Some (Doc m) /\
            accepted m = true.
Proof.
  unfold records_of. rewrite list_elem_of_omap. split.
  - intros (f & (Hsome & Hf)%elem_of_macro_files & (Hm & Ha)%parseMacroFile_Some). eauto.
  - intros (f & Hf & Hm & Ha). exists f. split.
    + apply elem_of_macro_files. eauto.
    + by apply parseMacroFile_Some.
Qed.

(** *** The sort *)

Lemma insert_sorted_perm {A} (key : A -> Z) (x : A) (l : list A) :
  Storage.insert_sorted key x l ≡ₚ x :: l.
Proof.
  induction l as [|y l IH]; simpl; [done|].
  destruct (key x <=? key y); [done|]. rewrite IH. apply Permutation_swap.
Qed.

Lemma sort_by_perm {A} (key : A -> Z) (l : list A) : Storage.sort_by key l ≡ₚ l.
Proof.
  induction l as [|x l IH]; simpl; [done|].
  rewrite insert_sorted_perm. by rewrite IH.
Qed.

Lemma insert_sorted_sorted {A} (key : A -> Z) (x : A) (l : list A) :
  Sorted (fun a b => key a <= key b) l ->
  Sorted (fun a b => key a <= key b) (Storage.insert_sorted key x l).
Proof.
  induction 1 as [|y l Hl IH Hhd]; simpl.
  - by repeat constructor.
  - destruct (Z.leb_spec (key x) (key y)) as [Hle|Hgt].
    + constructor; [by constructor|]. by constructor.
    + constructor; [done|].
      destruct Hhd as [|z l Hyz]; simpl.
      * constructor. lia.
      * destruct (key x <=? key z); constructor; [lia|done].
Qed.

Lemma sort_by_sorted {A} (key : A -> Z) (l : list A) :
  Sorted (fun a b => key a <= key b) (Storage.sort_by key l).
Proof.
  induction l as [|x l IH]; simpl; [constructor|]. by apply insert_sorted_sorted.
Qed.

(** A sorted list without two equal keys ascends strictly. *)
Lemma sorted_strict {A} (key : A -> Z) (l : list A) :
  Sorted (fun a b => key a <= key b) l -> NoDup (key <$> l) ->
  StronglySorted (fun a b => key a < key b) l.
Proof.
  intros Hs%Sorted_StronglySorted; [|intros a b c; lia].
  induction Hs as [|x l Hl IH Hx]; intros Hnd; [constructor|].
  apply NoDup_cons in Hnd as [Hnotin Hnd]. constructor; [by apply IH|].
  apply Forall_forall. intros y Hy.
  assert (key x <= key y) by (by eapply Forall_forall in Hx).
  assert (key x <> key y); [|lia].
  intros E. apply Hnotin. rewrite E. by apply list_elem_of_fmap_2.
Qed.

(** *** The steps of [readMacros] *)

Abbreviation readMacros := (Storage.readMacros iso loadedAt).

Lemma ensureDefaultMacroIfEmpty_eq (w : world) :
  Storage.ensureDefaultMacroIfEmpty loadedAt w = (Return tt, seeded loadedAt w).
Proof.
  unfold Storage.ensureDefaultMacroIfEmpty, seeded, bind at 1.
  change (Storage.listMacroFiles w) with (Return (macro_files w), w). cbv iota beta.
  destruct (0 <? length (macro_files w))%nat; [done|].
  unfold bind, gets.
  by destruct (bool_decide (is_Some (legacy w)) && negb (bool_decide (is_Some (marker w)))).
Qed.

Lemma readMacros_unfold (w : world) :
  readMacros w =
    match Migration.migrateLegacyMacrosIfNeeded iso w with
    | (Throw e, w1) => (Throw e, w1)
    | (Return _, w1) =>
        (Return (Storage.sort_by Storage.id_number (records_of (seeded loadedAt w1))),
         seeded loadedAt w1)
    end.
Proof.
  unfold Storage.readMacros, bind at 1.
  destruct (Migration.migrateLegacyMacrosIfNeeded iso w) as [[r|e] w1]; [|done].
  unfold bind at 1, Storage.ensureMacrosDir, ret. unfold bind at 1.
  by rewrite ensureDefaultMacroIfEmpty_eq.
Qed.

(** Whatever path the migration takes, it changes the directory only
    by writing the files of a first part of the legacy records. *)
Lemma migrate_macros (w : world) :
  exists now done,
    macros (Migration.migrateLegacyMacrosIfNeeded iso w).2
    = written_from now 0 done (macros w).
Proof.
  destruct (backed_up_frame w) as (Bmacros & _).
  assert (Hsame : forall w', macros w' = macros w ->
            exists now done, macros w' = written_from now 0 done (macros w)).
  { intros w' ->. by exists "", []. }
  rewrite migrate_unfold.
  destruct (bool_decide _); [by apply Hsame|].
  destruct (0 <? _)%nat; [by apply Hsame|].
  destruct (legacy w) as [[text|v]|]; [by apply Hsame| |by apply Hsame].
  destruct (_ >? _); [by apply Hsame|].
  destruct (split_at_null (legacy_records v)) as [Hnn|(done & rest & -> & Hnn)].
  - rewrite migrateEach_ok by done.
    destruct (updateKeyboardBindings_frame (id_map_from 0 ∅ (legacy_records v))
      (set_macros (written_from (iso (clock (backed_up w))) 0 (legacy_records v))
         (tick (backed_up w)))) as [s ->].
    eexists _, _. cbn. by rewrite Bmacros.
  - destruct (migrateEach_throw (iso (clock (backed_up w))) done rest 0 ∅
                (tick (backed_up w)) Hnn) as [e ->].
    eexists _, _. cbn. by rewrite Bmacros.
Qed.

(** *** Files named after their identifier *)

Lemma named_by_id_insert (dir : gmap string contents) (m : json) (z : Z) :
  named_by_id dir ->
  Storage.id_number m = z ->
  named_by_id (<[macro_file (Some (JStr (string_of_Z z))) := Doc m]> dir).
Proof.
  intros Hdir Hz f m' Hf Hlook Hacc.
  destruct (decide (f = macro_file (Some (JStr (string_of_Z z))))) as [->|Hne].
  - rewrite lookup_insert_eq in Hlook. injection Hlook as <-. by rewrite Hz.
  - rewrite lookup_insert_ne in Hlook by done. by apply Hdir.
Qed.

Lemma id_number_head (z : Z) (fs : list (string * json)) :
  Storage.id_number (JObj (("id", JStr (string_of_Z z)) :: fs)) = z.
Proof.
  change (match parseInt (string_of_Z z) with Some n => n | None => 0 end = z).
  by rewrite parseInt_string_of_Z.
Qed.

Lemma named_by_id_written (now : string) (records : list json) :
  forall (index : nat) (dir : gmap string contents),
  named_by_id dir -> named_by_id (written_from now index records dir).
Proof.
  induction records as [|legacy rest IH]; intros index dir Hdir; [done|].
  simpl. apply IH. apply named_by_id_insert; [done|]. apply id_number_head.
Qed.

Lemma named_by_id_seeded (w : world) :
  named_by_id (macros w) -> named_by_id (macros (seeded loadedAt w)).
Proof.
  intros Hdir. unfold seeded.
  destruct (0 <? _)%nat; [done|]. destruct (_ && _); [done|].
  by apply (named_by_id_insert (macros w) (Storage.DEFAULT_MACRO loadedAt) 9001).
Qed.

Lemma named_by_id_readMacros (w : world) :
  named_by_id (macros w) -> named_by_id (macros (readMacros w).2).
Proof.
  intros Hdir. rewrite readMacros_unfold.
  destruct (migrate_macros w) as (now & done & Hm).
  destruct (Migration.migrateLegacyMacrosIfNeeded iso w) as [[r|e] w1];
    cbn [snd] in *; [apply named_by_id_seeded|]; rewrite Hm;
    by apply named_by_id_written.
Qed.

(** Two records of a directory whose files are named after their
    identifiers do not share a number. *)
Lemma NoDup_id_numbers (w : world) :
  named_by_id (macros w) -> NoDup (Storage.id_number <$> records_of w).
Proof.
  intros Hdir. unfold records_of.
  pose proof (NoDup_macro_files w) as Hnd.
  assert (Hin : forall f, f ∈ macro_files w -> Storage.isMacroFile f = true)
    by (by intros f [_ ?]%elem_of_macro_files).
  induction (macro_files w) as [|f fs IH]; [constructor|].
  apply NoDup_cons in Hnd as [Hf Hnd]. cbn [omap list_omap].
  specialize (IH Hnd (fun g Hg => Hin g (list_elem_of_further _ _ _ Hg))).
  destruct (Storage.parseMacroFile f w) as [m|] eqn:Em; [|done].
  cbn [fmap list_fmap]. apply NoDup_cons. split; [|done].
  intros (m' & Heq & (g & Hg & Em')%list_elem_of_omap)%list_elem_of_fmap.
  apply parseMacroFile_Some in Em as [Em Ha], Em' as [Em' Ha'].
  apply Hf.
  rewrite (Hdir f m (Hin f (list_elem_of_here _ _)) Em Ha).
  rewrite Heq.
  rewrite <- (Hdir g m' (Hin g (list_elem_of_further _ _ _ Hg)) Em' Ha'). done.
Qed.

(** *** What [readMacros] returns *)

(** C8, as the code has it.  For every state of the directory, the list
    [readMacros] returns is sorted ascending by the number of the
    identifier; it ascends strictly, with no two records of the same
    identifier, when every per-record file that holds a valid record is
    named [<n>.macro] for the number [n] of its identifier, as the
    files written by this code are. *)
Theorem readMacros_sorted (w w' : world) (ms : list json) :
  readMacros w = (Return ms, w') ->
  Sorted (fun a b => Storage.id_number a <= Storage.id_number b) ms /\
  (named_by_id (macros w) ->
     StronglySorted (fun a b => Storage.id_number a < Storage.id_number b) ms /\
     NoDup (Storage.id_number <$> ms)).
Proof.
  intros Hrun. pose proof (named_by_id_readMacros w) as Hnamed.
  rewrite Hrun in Hnamed. cbn [snd] in Hnamed.
  rewrite readMacros_unfold in Hrun.
  destruct (Migration.migrateLegacyMacrosIfNeeded iso w) as [[r|e] w1]; [|done].
  injection Hrun as <- <-.
  split; [apply sort_by_sorted|]. intros Hdir.
  assert (NoDup (Storage.id_number <$>
            Storage.sort_by Storage.id_number (records_of (seeded loadedAt w1)))) as Hnd.
  { rewrite sort_by_perm. by apply NoDup_id_numbers, Hnamed. }
  split; [|done]. apply sorted_strict; [apply sort_by_sorted|done].
Qed.

(** C9, as the code has it.  Every record that [readMacros] or
    [getMacro] returns has an identifier that is truthy and whose text
    [parseInt] reads as an integer of 9001..9999 (the identifier itself
    may be a number, or a string that goes on after the digits); a
    per-record file whose document has no identifier, or one that reads
    as no integer of the range, is skipped whatever its name. *)
Theorem returned_ids_in_range (w : world) :
  (forall ms w' m, readMacros w = (Return ms, w') -> m ∈ ms -> valid_id m) /\
  (forall raw m, Storage.getMacro raw w = Some m -> valid_id m) /\
  (forall f parsed,
     macros w !! f = Some (Doc parsed) ->
     prop parsed "id" = None \/
     (forall n, parseInt (String_ (prop parsed "id")) = Some n -> ~ in_range n) ->
     Storage.parseMacroFile f w = None /\ parsed ∉ records_of w).
Proof.
  split; [|split].
  - intros ms w' m Hrun Hin. rewrite readMacros_unfold in Hrun.
    destruct (Migration.migrateLegacyMacrosIfNeeded iso w) as [[r|e] w1]; [|done].
    injection Hrun as <- <-. rewrite sort_by_perm in Hin.
    apply elem_of_records_of in Hin as (f & _ & _ & Ha).
    by apply accepted_valid_id.
  - intros raw m Hget. unfold Storage.getMacro in Hget.
    destruct (Storage.normalizeMacroId raw); [|done].
    destruct (_ || _); [done|]. destruct (macros w !! _); [|done].
    apply parseMacroFile_Some in Hget as [_ Ha]. by apply accepted_valid_id.
  - intros f parsed Hf Hbad.
    assert (accepted parsed = false) as Hrej.
    { destruct (accepted parsed) eqn:Ha; [|done].
      apply accepted_valid_id in Ha as [Ht (n & Hn & Hr)].
      destruct Hbad as [Hnone|Hout]; [by rewrite Hnone in Ht|by destruct (Hout n Hn)]. }
    split.
    + by rewrite parseMacroFile_eq, Hf, Hrej.
    + intros (g & _ & _ & Ha)%elem_of_records_of. congruence.
Qed.

(** *** Creating a record *)

Lemma scan_ids_spec (used : gset Z) (fuel : nat) :
  forall id : Z,
  match Storage.scan_ids used id fuel with
  | Some k =>
      id <= k < id + Z.of_nat fuel /\ (k ∉ used) /\
      (forall j, id <= j < k -> j ∈ used)
  | None => forall j, id <= j < id + Z.of_nat fuel -> j ∈ used
  end.
Proof.
  induction fuel as [|fuel IH]; intros id; simpl.
  - intros j Hj. lia.
  - destruct (decide (id ∈ used)) as [Hin|Hout].
    + rewrite bool_decide_true by done. specialize (IH (id + 1)).
      destruct (Storage.scan_ids used (id + 1) fuel) as [k|].
      * destruct IH as (Hk & Hfree & Hbelow). split; [lia|]. split; [done|].
        intros j Hj. destruct (decide (j = id)) as [->|Hne]; [done|].
        apply Hbelow. lia.
      * intros j Hj. destruct (decide (j = id)) as [->|Hne]; [done|].
        apply IH. lia.
    + rewrite bool_decide_false by done. split; [lia|]. split; [done|].
      intros j Hj. lia.
Qed.

Lemma createMacro_unfold (macroData : json) (w : world) :
  Storage.createMacro iso loadedAt macroData w =
    match readMacros w with
    | (Throw e, w1) => (Throw e, w1)
    | (Return ms, w1) =>
        match Storage.scan_ids (list_to_set (Storage.id_number <$> ms)) ID_MIN 999 with
        | None => (Throw Storage.NO_IDS, w1)
        | Some k =>
            match macroData with
            | JNull =>
                (Throw (TypeError "Cannot read properties of null (reading 'name')"),
                 tick w1)
            | _ =>
                let newMacro := JObj [
                  ("id", JStr (string_of_Z k));
                  ("name", or_else (prop macroData "name")
                             (JStr ("Macro " +:+ string_of_Z k)));
                  ("description", or_else (prop macroData "description") (JStr ""));
                  ("commands", or_else (prop macroData "commands") (JStr ""));
                  ("createdAt", JStr (iso (clock w1)));
                  ("updatedAt", JStr (iso (clock w1)))
                ] in
                (Return newMacro,
                 set_macros (insert (macro_file (Some (JStr (string_of_Z k))))
                               (Doc newMacro)) (tick w1))
            end
        end
    end.
Proof.
  unfold Storage.createMacro, Storage.getNextMacroId, bind at 1 2.
  destruct (readMacros w) as [[ms|e] w1]; [|done].
  change (Z.to_nat (ID_MAX - ID_MIN + 1)) with 999%nat.
  destruct (Storage.scan_ids _ _ _) as [k|]; [|done].
  unfold ret, bind at 1, Migration.now. by destruct macroData.
Qed.

(** The file [createMacro] writes is named after its identifier. *)
Lemma named_by_id_createMacro (macroData : json) (w : world) :
  named_by_id (macros w) ->
  named_by_id (macros (Storage.createMacro iso loadedAt macroData w).2).
Proof.
  intros Hdir. apply named_by_id_readMacros in Hdir.
  rewrite createMacro_unfold. destruct (readMacros w) as [[ms|e] w1]; [|done].
  destruct (Storage.scan_ids _ _ _) as [k|]; [|done]. cbn [snd] in Hdir.
  destruct macroData; try done.
  all: cbn [snd macros set_macros tick].
  all: apply named_by_id_insert; [done|apply id_number_head].
Qed.

(** C5.  For a creation input that is not [null], on a directory that
    [readMacros] reads as the records [ms]: [createMacro] either
    returns a record whose identifier is the text of the lowest integer
    of 9001..9999 that no record of [ms] carries, with [createdAt] and
    [updatedAt] both the time of the call and with name, description
    and commands taken from the input or defaulted
    ([input.field || default]), and a [getMacro] of that identifier
    then returns this very record; or it raises the capacity error, and
    it does that exactly when every integer of 9001..9999 is carried by
    a record of [ms]. *)
Theorem createMacro_allocates (macroData : json) (w w1 : world) (ms : list json) :
  macroData <> JNull ->
  readMacros w = (Return ms, w1) ->
  let used (j : Z) := j ∈ Storage.id_number <$> ms in
  match Storage.createMacro iso loadedAt macroData w with
  | (Return m, w2) =>
      exists k,
        in_range k /\ (~ used k) /\ (forall j, in_range j -> j < k -> used j) /\
        (m = JObj [
          ("id", JStr (string_of_Z k));
          ("name", or_else (prop macroData "name") (JStr ("Macro " +:+ string_of_Z k)));
          ("description", or_else (prop macroData "description") (JStr ""));
          ("commands", or_else (prop macroData "commands") (JStr ""));
          ("createdAt", JStr (iso (clock w1)));
          ("updatedAt", JStr (iso (clock w1)))
        ]) /\
        Storage.getMacro (Some (JStr (string_of_Z k))) w2 = Some m
  | (Throw e, w2) =>
      e = Storage.NO_IDS /\ (forall j, in_range j -> used j) /\ w2 = w1
  end.
Proof.
  intros Hnn Hrun used. rewrite createMacro_unfold, Hrun.
  pose proof (scan_ids_spec (list_to_set (Storage.id_number <$> ms)) 999 ID_MIN) as Hscan.
  assert (Hused : forall j, j ∈ (list_to_set (Storage.id_number <$> ms) : gset Z)
                            <-> used j)
    by (intros j; apply elem_of_list_to_set).
  destruct (Storage.scan_ids _ _ _) as [k|].
  - destruct Hscan as (Hk & Hfree & Hbelow).
    assert (in_range k) as Hr by (unfold in_range, ID_MIN, ID_MAX in *; lia).
    destruct macroData; try done.
    all: exists k; split; [done|]; split; [by rewrite <- Hused|];
      split; [intros j [Hj _] Hjk; apply Hused, Hbelow; lia|]; split; [done|].
    all: rewrite (getMacro_of_number _ k) by apply parseInt_string_of_Z.
    all: destruct Hr as [->%Z.leb_le ->%Z.leb_le]; cbn [andb].
    all: rewrite parseMacroFile_eq; cbn [macros set_macros];
      rewrite lookup_insert_eq.
    all: unfold accepted, Storage.isValidMacroId;
      cbn [truthy Storage.is_object prop assoc String.eqb Ascii.eqb Bool.eqb
           andb String_ to_string];
      rewrite parseInt_string_of_Z.
    all: destruct (String.eqb_spec (string_of_Z k) "") as [E|_];
      [by apply string_of_Z_nonempty in E|].
    all: destruct Hk as [->%Z.leb_le Hk]; cbn [negb andb].
    all: assert ((k <=? ID_MAX) = true) as -> by (apply Z.leb_le; unfold ID_MAX, ID_MIN in *; lia).
    all: done.
  - split; [done|]. split; [|done].
    intros j [Hj1 Hj2]. apply Hused, Hscan. unfold ID_MIN, ID_MAX in *. lia.
Qed.

End StorageFacts.

(** *** The storage on sample directories *)

Lemma createMacro_allocates_witness :
  exists m w2,
    Storage.createMacro sample_iso sample_loadedAt
      (JObj [("name", JStr "Park"); ("commands", JStr "G53 G0 X0 Y0")]) stored_install
    = (Return m, w2) /\
    prop m "id" = Some (JStr "9002") /\
    Storage.getMacro (Some (JStr "9002")) w2 = Some m.
Proof.
  pose proof (createMacro_allocates sample_iso sample_loadedAt
    (JObj [("name", JStr "Park"); ("commands", JStr "G53 G0 X0 Y0")])
    stored_install stored_install
    [record "9001" "Home" "G53 G0 Z0"; record "9003" "Probe" "G38.2 Z-10 F50"]
    ltac:(discriminate) ltac:(vm_compute; reflexivity)) as H.
  cbv zeta in H.
  destruct (Storage.createMacro _ _ _ _) as [[m|e] w2] eqn:E.
  - exists m, w2. split; [done|].
    destruct H as (k & _ & _ & _ & Hm & Hget).
    vm_compute in E. injection E as E _. subst m. injection Hm as Hk.
    change "9002" with (string_of_Z 9002) in Hk. apply string_of_Z_inj in Hk.
    subst k. split; [reflexivity|exact Hget].
  - vm_compute in E. discriminate E.
Defined.

(** C8, counterexample.  A copy of 9001.macro beside the file itself:
    [readMacros] returns both records, with the one identifier 9001. *)
Lemma copied_file_is_listed_twice :
  let w := set_macros (insert "9001 - Copy.macro" (Doc (record "9001" "Home" "G53 G0 Z0")))
             stored_install in
  exists ms w',
    Storage.readMacros sample_iso sample_loadedAt w = (Return ms, w') /\
    Storage.id_number <$> ms = [9001; 9001; 9003] /\
    ~ StronglySorted (fun a b => Storage.id_number a < Storage.id_number b) ms /\
    ~ NoDup (Storage.id_number <$> ms).
Proof.
  eexists _, _. split; [vm_compute; reflexivity|].
  split; [reflexivity|]. split.
  - intros Hs. apply StronglySorted_inv in Hs as [_ Hall].
    apply Forall_cons in Hall as [Hlt _]. vm_compute in Hlt. discriminate Hlt.
  - intros Hnd. apply NoDup_cons in Hnd as [Hnotin _]. apply Hnotin.
    apply list_elem_of_here.
Qed.

Lemma readMacros_sorted_witness :
  exists ms,
    (Storage.readMacros sample_iso sample_loadedAt stored_install).1 = Return ms /\
    StronglySorted (fun a b => Storage.id_number a < Storage.id_number b) ms /\
    NoDup (Storage.id_number <$> ms).
Proof.
  exists [record "9001" "Home" "G53 G0 Z0"; record "9003" "Probe" "G38.2 Z-10 F50"].
  split; [vm_compute; reflexivity|].
  apply (readMacros_sorted sample_iso sample_loadedAt stored_install stored_install).
  - vm_compute. reflexivity.
  - intros f m Hf Hlook Hacc. unfold stored_install in Hlook. cbn [macros] in Hlook.
    apply lookup_insert_Some in Hlook as [[<- [= <-]]|[_ Hlook]]; [reflexivity|].
    apply lookup_insert_Some in Hlook as [[<- [= <-]]|[_ Hlook]]; [reflexivity|].
    by rewrite lookup_empty in Hlook.
Defined.

(** C9, counterexample.  A file 9001.macro whose record carries the
    identifier [9001abc]: [readMacros] and [getMacro] return the
    record, and its identifier is no numeric string. *)
Lemma lenient_id_is_returned :
  let r := record "9001abc" "Home" "G53 G0 Z0" in
  let w := World (<["9001.macro" := Doc r]> ∅) (Some "2025-06-01T10:00:00.000Z")
             None None None 0 in
  Storage.readMacros sample_iso sample_loadedAt w = (Return [r], w) /\
  Storage.getMacro (Some (JStr "9001")) w = Some r /\
  prop r "id" = Some (JStr "9001abc") /\
  numeric_string (prop r "id") = false.
Proof. vm_compute. by repeat split. Qed.

(** ** Expansion *)

Section ExpanderFacts.

Variable parseM98Command : string -> option Expander.parsedM98.

Lemma split_lines_nonnil (s : string) : split_lines s <> [].
Proof.
  induction s as [|c s IH]; simpl; [done|].
  destruct (Ascii.eqb c newline); [done|]. by destruct (split_lines s).
Qed.

Lemma join_with_cons (sep p : string) (rest : list string) :
  rest <> [] -> join_with sep (p :: rest) = p +:+ sep +:+ join_with sep rest.
Proof. by destruct rest. Qed.

Lemma join_with_cons_head (sep : string) (c : ascii) (l : string) (ls : list string) :
  join_with sep (String c l :: ls) = String c (join_with sep (l :: ls)).
Proof. by destruct ls. Qed.

(** Joining the lines with newlines gives the text back. *)
Lemma join_split_lines (s : string) :
  join_with (String newline "") (split_lines s) = s.
Proof.
  induction s as [|c s IH]; [done|].
  pose proof (split_lines_nonnil s) as Hnn.
  cbn [split_lines].
  destruct (Ascii.eqb_spec c newline) as [->|Hc].
  - rewrite join_with_cons by done. by rewrite IH.
  - destruct (split_lines s) as [|l ls]; [done|].
    by rewrite join_with_cons_head, IH.
Qed.

Lemma head_not_space_skip (s : string) : head_not_space (skip_spaces s).
Proof.
  induction s as [|c s IH]; simpl; [done|].
  by destruct (is_space c) eqn:E.
Qed.

Lemma head_not_space_trimEnd (s : string) :
  head_not_space s -> head_not_space (trimEnd s).
Proof.
  destruct s as [|c s]; simpl; [done|]. intros Hc.
  destruct (trimEnd s); simpl; by rewrite ?Hc.
Qed.

Lemma trimEnd_idem (s : string) : trimEnd (trimEnd s) = trimEnd s.
Proof.
  induction s as [|c s IH]; simpl; [done|].
  destruct (trimEnd s) as [|k kept] eqn:E.
  - destruct (is_space c) eqn:Hc; simpl; [done|]. by rewrite Hc.
  - change (trimEnd (String c (String k kept))) with
      (match trimEnd (String k kept) with
       | EmptyString => if is_space c then EmptyString else String c EmptyString
       | t => String c t
       end).
    by rewrite IH.
Qed.

Lemma trim_trimmed (s : string) : trimmed (trim s).
Proof.
  split.
  - apply head_not_space_trimEnd, head_not_space_skip.
  - apply trimEnd_idem.
Qed.

Lemma command_lines_trimmed (text : string) :
  Forall (fun line => line <> "" /\ trimmed line) (Expander.command_lines text).
Proof.
  unfold Expander.command_lines. apply Forall_forall.
  intros line (Hne & (raw & -> & _)%list_elem_of_fmap)%list_elem_of_filter.
  split; [done|apply trim_trimmed].
Qed.

Abbreviation expand := (Expander.expand parseM98Command).


End ExpanderFacts.


(** ** Execution *)

Section RoutesFacts.

Context {X : Type}.
Variable cncController : bool.
Variables isConnected lastStatus : X -> value.
Variable process :
  string -> Routes.pluginContext -> X -> outcome Routes.processResult * X.
Variable sendCommand : value -> Routes.sendOptions -> X -> outcome unit * X.
Variable stamp : nat -> string.

Abbreviation handleExecute :=
  (Routes.handleExecute cncController isConnected lastStatus process sendCommand stamp).
Abbreviation forward := (Routes.forward sendCommand stamp).

Lemma await_sendCommand_eq (command : value) (options : Routes.sendOptions)
    (s : Routes.env X) :
  Routes.await_sendCommand sendCommand command options s =
    let '(r, x) := sendCommand command options (Routes.device s) in
    let s' := Routes.Env (Routes.files s) x (Routes.draws s)
                (Routes.trace s ++ dispatched [(command, options,
                   match r with Return _ => false | Throw _ => true end)]) in
    (r, s').
Proof.
  unfold Routes.await_sendCommand, bind at 1, Routes.emit, modify, try_catch,
    bind, Routes.external, throw. cbn.
  destruct (sendCommand command options (Routes.device s)) as [[[]|e] x]; cbn;
    by rewrite <- app_assoc.
Qed.

Lemma forward_cons (macroId : string) (macroName : value) (contextId : string)
    (cmd : json) (rest : list json) (s : Routes.env X) :
  cmd <> JNull ->
  forward macroId macroName contextId (cmd :: rest) s =
    let '(options, s1) := prepared stamp macroId macroName contextId cmd s in
    match Routes.await_sendCommand sendCommand (prop cmd "command") options s1 with
    | (Return _, s2) => forward macroId macroName contextId rest s2
    | (Throw e, s2) => (Throw e, s2)
    end.
Proof.
  intros Hnn. unfold prepared.
  transitivity (
    bind (if truthy (prop cmd "commandId")
          then ret (or_else (prop cmd "commandId") JNull)
          else bind (Routes.draw stamp)
                 (fun d => ret (JStr (contextId +:+ "-" +:+ d))))
      (fun uniqueCommandId =>
         bind (Routes.await_sendCommand sendCommand (prop cmd "command")
                 (Routes.SendOptions uniqueCommandId
                    (if truthy (prop cmd "displayCommand")
                     then prop cmd "displayCommand" else prop cmd "command")
                    (if (0 <? length (Routes.merge
                           [("sourceId", Some (JStr "macro"));
                            ("macroId", Some (JStr macroId));
                            ("macroName", macroName)]
                           (List.map (fun kv => (kv.1, Some kv.2))
                              (Migration.spread
                                 (Some (or_else (prop cmd "meta") (JObj [])))))))%nat
                     then Some (Routes.merge
                           [("sourceId", Some (JStr "macro"));
                            ("macroId", Some (JStr macroId));
                            ("macroName", macroName)]
                           (List.map (fun kv => (kv.1, Some kv.2))
                              (Migration.spread
                                 (Some (or_else (prop cmd "meta") (JObj []))))))
                     else None)))
           (fun _ => forward macroId macroName contextId rest)) s).
  - by destruct cmd.
  - unfold bind at 1.
    destruct (truthy (prop cmd "commandId")).
    + unfold ret at 1. unfold bind at 1.
      by destruct (Routes.await_sendCommand _ _ _ _) as [[[]|e] s2].
    + unfold bind at 1, Routes.draw, ret at 1. unfold bind at 1.
      by destruct (Routes.await_sendCommand _ _ _ _) as [[[]|e] s2].
Qed.

Lemma prepared_frame (macroId : string) (macroName : value) (contextId : string)
    (cmd : json) (s : Routes.env X) :
  let s1 := (prepared stamp macroId macroName contextId cmd s).2 in
  Routes.trace s1 = Routes.trace s /\ Routes.files s1 = Routes.files s /\
  Routes.device s1 = Routes.device s.
Proof. unfold prepared. by destruct (truthy (prop cmd "commandId")). Qed.

(** What the loop over the commands does: it dispatches a first part of
    the commands, in their order and one at a time; it returns when it
    has dispatched them all and none was rejected, and throws
    otherwise. *)
Lemma forward_shape (macroId : string) (macroName : value) (contextId : string)
    (cmds : list json) :
  forall s : Routes.env X,
  exists sent,
    Routes.trace (forward macroId macroName contextId cmds s).2
    = Routes.trace s ++ dispatched sent /\
    Routes.files (forward macroId macroName contextId cmds s).2 = Routes.files s /\
    sent.*1.*1 `prefix_of` commands_of cmds /\
    match (forward macroId macroName contextId cmds s).1 with
    | Return _ => sent.*1.*1 = commands_of cmds /\ Forall (fun d => d.2 = false) sent
    | Throw _ => ~ (sent.*1.*1 = commands_of cmds /\ Forall (fun d => d.2 = false) sent)
    end.
Proof.
  induction cmds as [|cmd rest IH]; intros s.
  - exists []. cbn. by rewrite app_nil_r.
  - assert (cmd = JNull \/ cmd <> JNull) as [->|Hnn]
      by (destruct cmd; (by left) || (by right)).
    { exists []. cbn. rewrite app_nil_r. repeat split; [apply prefix_nil|].
      by intros [? _]. }
    rewrite forward_cons by done.
    destruct (prepared_frame macroId macroName contextId cmd s) as (Ht & Hf & Hd).
    destruct (prepared stamp macroId macroName contextId cmd s) as [options s1].
    cbn [snd] in Ht, Hf, Hd. rewrite await_sendCommand_eq.
    destruct (sendCommand (prop cmd "command") options (Routes.device s1))
      as [[[]|e] x] eqn:Es.
    + cbn zeta iota beta.
      destruct (IH (Routes.Env (Routes.files s1) x (Routes.draws s1)
                  (Routes.trace s1 ++ dispatched [(prop cmd "command", options, false)])))
        as (sent & Htrace & Hfiles & Hprefix & Hend).
      exists ((prop cmd "command", options, false) :: sent).
      destruct (forward macroId macroName contextId rest _) as [o s2].
      cbn [fst snd] in *.
      rewrite Htrace, Hfiles. cbn [Routes.trace Routes.files].
      rewrite Ht, Hf. split; [by rewrite <- app_assoc|]. split; [done|].
      split; [by apply prefix_cons|].
      destruct o.
      * destruct Hend as [Heq Hall]. unfold commands_of in *.
        split; [cbn; by f_equal|]. by constructor.
      * intros [Heq Hall]. apply Hend. unfold commands_of in *.
        cbn in Heq. injection Heq as Heq.
        apply Forall_cons in Hall as [_ Hall]. done.
    + exists [(prop cmd "command", options, true)]. cbn.
      rewrite Ht, Hf. repeat split.
      * apply prefix_cons, prefix_nil.
      * intros [_ Hall]. by apply Forall_cons in Hall as [? _].
Qed.

(** A controller that rejects nothing is sent every command. *)
Lemma forward_returns (macroId : string) (macroName : value) (contextId : string)
    (cmds : list json) :
  (forall command options x, (sendCommand command options x).1 = Return tt) ->
  Forall (fun cmd => cmd <> JNull) cmds ->
  forall s : Routes.env X,
    (forward macroId macroName contextId cmds s).1 = Return tt.
Proof.
  intros Hsend. induction 1 as [|cmd rest Hnn Hrest IH]; intros s; [done|].
  rewrite forward_cons by done.
  destruct (prepared stamp macroId macroName contextId cmd s) as [options s1].
  rewrite await_sendCommand_eq.
  specialize (Hsend (prop cmd "command") options (Routes.device s1)).
  destruct (sendCommand _ _ _) as [[[]|e] x]; [|done]. apply IH.
Qed.

Lemma dispatched_no_response (sent : list (value * Routes.sendOptions * bool)) :
  Forall (fun e => is_response e = false) (dispatched sent).
Proof. induction sent as [|d sent IH]; cbn; by repeat constructor. Qed.

Lemma dispatched_not_processed (sent : list (value * Routes.sendOptions * bool)) :
  Forall (fun e => is_processed e = false) (dispatched sent).
Proof. induction sent as [|d sent IH]; cbn; by repeat constructor. Qed.

(** The paths of [handleExecute], one after the other. *)
Lemma handleExecute_unfold (id : value) (s : Routes.env X) :
  handleExecute id s =
    if negb (connected cncController isConnected s)
    then (Return tt, logged (Routes.Responded not_connected_response) s)
    else
      match Storage.normalizeMacroId id with
      | None => (Return tt, logged (Routes.Responded bad_id_response) s)
      | Some macroId =>
          if String.eqb macroId ""
             || negb (Storage.isValidMacroId (Some (JStr macroId)))
          then (Return tt, logged (Routes.Responded bad_id_response) s)
          else
            match Storage.getMacro (Some (JStr macroId)) (Routes.files s) with
            | None => (Return tt, logged (Routes.Responded not_found_response) s)
            | Some macro =>
                let m98Command := "M98 P" +:+ macroId in
                let context := context_of lastStatus stamp macroId macro s in
                let asked x :=
                  Routes.Env (Routes.files s) x (S (Routes.draws s))
                    (Routes.trace s ++ [Routes.Processed m98Command context]) in
                match process m98Command context (Routes.device s) with
                | (Throw e, x) =>
                    (Return tt, logged (Routes.Responded (failure_response e)) (asked x))
                | (Return pr, x) =>
                    if negb (Routes.shouldContinue pr)
                    then (Return tt,
                          logged (Routes.Responded (refused_response pr)) (asked x))
                    else
                      match forward macroId (prop macro "name")
                              (Routes.ctx_commandId context) (Routes.commands pr)
                              (asked x) with
                      | (Return _, s3) =>
                          (Return tt,
                           logged (Routes.Responded (success_response macro m98Command)) s3)
                      | (Throw e, s3) =>
                          (Return tt, logged (Routes.Responded (failure_response e)) s3)
                      end
                end
            end
      end.
Proof.
  unfold Routes.handleExecute, try_catch, bind at 1, gets. fold (connected cncController isConnected s).
  destruct (connected cncController isConnected s); cbn [negb]; [|done].
  destruct (Storage.normalizeMacroId id) as [macroId|]; [|done].
  destruct (String.eqb macroId "" || negb _); [done|].
  unfold bind at 1.
  destruct (Storage.getMacro _ _) as [macro|]; [|done].
  unfold bind at 1, Routes.draw. unfold bind at 1. unfold bind at 1.
  unfold Routes.await_process, bind at 1, Routes.emit, modify, Routes.external.
  cbn [Routes.files Routes.device Routes.draws Routes.trace].
  fold (context_of lastStatus stamp macroId macro s).
  destruct (process _ _ _) as [[pr|e] x]; [|done].
  destruct (Routes.shouldContinue pr); cbn [negb]; [|done].
  unfold bind at 1.
  by destruct (Routes.forward _ _ _ _ _ _ _) as [[[]|e] s3].
Qed.


End RoutesFacts.

(** *** The handler on a sample controller *)


(** * Further properties *)

(** ** The migration and the files it finds *)

Section MigrationFrame.

Variable iso : nat -> string.

Abbreviation migrate' := (Migration.migrateLegacyMacrosIfNeeded iso).

(** The state the migration leaves, path by path: the legacy file is
    never written, the backup only by [backupLegacyMacros], and the
    directory only when it listed no per-record file. *)
Lemma migrate_state (w : world) :
  exists now done,
    macros (migrate' w).2 = written_from now 0 done (macros w) /\
    (done <> [] -> macro_files w = []) /\
    legacy (migrate' w).2 = legacy w /\
    (backup (migrate' w).2 = backup w \/
     backup (migrate' w).2 = backup (backed_up w)).
Proof.
  destruct (backed_up_frame w) as (Bmacros & _ & Blegacy & _).
  assert (Hsame : forall w',
            macros w' = macros w -> legacy w' = legacy w ->
            (backup w' = backup w \/ backup w' = backup (backed_up w)) ->
            exists now done,
              macros w' = written_from now 0 done (macros w) /\
              (done <> [] -> macro_files w = []) /\
              legacy w' = legacy w /\
              (backup w' = backup w \/ backup w' = backup (backed_up w))).
  { intros w' Hm Hl Hb. by exists "", []. }
  rewrite migrate_unfold.
  destruct (bool_decide _); [apply Hsame; auto|].
  destruct (macro_files w) as [|f fs] eqn:Hf; cbn [length Nat.ltb Nat.leb];
    [|apply Hsame; cbn; auto].
  destruct (legacy w) as [[text|v]|] eqn:Hl; [apply Hsame; auto| |apply Hsame; auto].
  destruct (_ >? _); [apply Hsame; cbn; auto|].
  destruct (split_at_null (legacy_records v)) as [Hnn|(done & rest & -> & Hnn)].
  - rewrite migrateEach_ok by done.
    destruct (updateKeyboardBindings_frame (id_map_from 0 ∅ (legacy_records v))
      (set_macros (written_from (iso (clock (backed_up w))) 0 (legacy_records v))
         (tick (backed_up w)))) as [s ->].
    eexists _, _. cbn. rewrite Bmacros. repeat split; auto; congruence.
  - destruct (migrateEach_throw (iso (clock (backed_up w))) done rest 0 ∅
                (tick (backed_up w)) Hnn) as [e ->].
    eexists _, _. cbn. rewrite Bmacros. repeat split; auto; congruence.
Qed.

(** X1.  The migration never removes or overwrites an entry of the
    directory: every file that was there is there afterwards, with the
    contents it had. *)
Theorem migration_keeps_entries (w : world) :
  macros w ⊆ macros (migrate' w).2.
Proof.
  destruct (migrate_state w) as (now & done & -> & Hfresh & _).
  apply map_subseteq_spec. intros f c Hf.
  destruct done as [|legacy done]; [done|].
  rewrite written_from_other; [done|].
  intros k _ ->.
  pose proof (macro_files_nil w (new_file (0 + k)) (Hfresh ltac:(done))
                (mk_is_Some _ _ Hf)) as Hno.
  by rewrite new_file_is_macro in Hno.
Qed.

(** X2.  The migration never writes the legacy file, and never writes over
    a backup: the backup afterwards is the one there was, or, when
    there was none, nothing or a copy of the legacy file. *)
Theorem migration_keeps_legacy_and_backup (w : world) :
  legacy (migrate' w).2 = legacy w /\
  match backup w with
  | Some b => backup (migrate' w).2 = Some b
  | None => backup (migrate' w).2 = None \/ backup (migrate' w).2 = legacy w
  end.
Proof.
  destruct (migrate_state w) as (now & done & _ & _ & Hl & Hb).
  split; [done|]. rewrite backed_up_backup in Hb.
  destruct (backup w) as [b|]; destruct Hb as [->| ->]; auto.
Qed.

(** X3.  With per-record files in the directory and no marker, the
    installation counts as migrated: the call returns [existing] and
    writes the marker, the legacy file is backed up if there is one and
    no backup yet, and no record and no setting is touched. *)
Theorem migration_with_existing_files (w : world) :
  marker w = None ->
  macro_files w <> [] ->
  exists w',
    migrate' w = (Return (Migration.not_migrated "existing"), w') /\
    marker w' = Some (iso (clock w)) /\
    macros w' = macros w /\
    settings w' = settings w /\
    legacy w' = legacy w /\
    backup w' = match backup w with Some b => Some b | None => legacy w end.
Proof.
  intros Hm Hf. rewrite migrate_with_files by done.
  destruct (backed_up_frame w) as (Bmacros & _ & Blegacy & Bsettings & Bclock).
  eexists. split; [done|]. cbn.
  by rewrite Bclock, Bmacros, Bsettings, Blegacy, backed_up_backup.
Qed.


End MigrationFrame.

(** ** The settings the migration rewrites *)

Section SettingsFrame.

Lemma assoc_set_field_eq {V} (k : string) (v : V) (fs : list (string * V)) :
  assoc k (set_field k v fs) = Some v.
Proof.
  induction fs as [|[k' v'] fs IH]; simpl; [by rewrite String.eqb_refl|].
  destruct (String.eqb_spec k k') as [->|Hne]; simpl.
  - by rewrite String.eqb_refl.
  - by destruct (String.eqb_spec k k').
Qed.

Lemma assoc_set_field_ne {V} (k k0 : string) (v : V) (fs : list (string * V)) :
  k <> k0 -> assoc k (set_field k0 v fs) = assoc k fs.
Proof.
  intros Hne. induction fs as [|[k' v'] fs IH]; simpl.
  - by destruct (String.eqb_spec k k0).
  - destruct (String.eqb_spec k0 k') as [->|Hne']; simpl.
    + by destruct (String.eqb_spec k k').
    + rewrite IH. done.
Qed.

Lemma set_field_keys {V} (k : string) (v : V) (fs : list (string * V)) :
  k ∈ fs.*1 -> (set_field k v fs).*1 = fs.*1.
Proof.
  induction fs as [|[k' v'] fs IH]; simpl; intros Hin; [by apply not_elem_of_nil in Hin|].
  destruct (String.eqb_spec k k') as [->|Hne]; [done|].
  simpl. f_equal. apply IH. by apply elem_of_cons in Hin as [?|?].
Qed.

Lemma rebind_keys (idMap : gmap string string)
    (acc : list (string * json) * bool) (entry : string * json) :
  entry.1 ∈ acc.1.*1 -> (Migration.rebind idMap acc entry).1.*1 = acc.1.*1.
Proof.
  intros Hin. unfold Migration.rebind.
  destruct entry.2; try done. destruct (strip_prefix _ _); [|done].
  destruct (idMap !! _); [|done]. destruct (String.eqb _ _); [done|].
  by apply set_field_keys.
Qed.

Lemma fold_rebind_keys (idMap : gmap string string) (rest : list (string * json)) :
  forall acc : list (string * json) * bool,
  rest.*1 ⊆ acc.1.*1 ->
  (fold_left (Migration.rebind idMap) rest acc).1.*1 = acc.1.*1.
Proof.
  induction rest as [|entry rest IH]; intros acc Hsub; [done|].
  simpl. assert (entry.1 ∈ acc.1.*1) as Hin by (apply Hsub, list_elem_of_here).
  rewrite IH; rewrite rebind_keys by done; [done|].
  intros k Hk. apply Hsub. by apply list_elem_of_further.
Qed.

(** X5.  [updateKeyboardBindings] never throws, touches no file but
    settings.json, leaves every setting other than [keyboardBindings]
    as it reads, and neither adds nor removes a binding key. *)
Theorem updateKeyboardBindings_only_rebinds (idMap : gmap string string) (w : world) :
  let after := Migration.updateKeyboardBindings idMap w in
  after.1 = Return tt /\
  macros after.2 = macros w /\ marker after.2 = marker w /\
  legacy after.2 = legacy w /\ backup after.2 = backup w /\
  clock after.2 = clock w /\
  (forall k, k <> "keyboardBindings" ->
     setting k (settings after.2) = setting k (settings w)) /\
  binding_keys (settings after.2) = binding_keys (settings w).
Proof.
  cbn zeta. unfold Migration.updateKeyboardBindings.
  destruct (settings w) as [[text|v]|] eqn:Es;
    [by cbn [fst snd]; rewrite ?Es| |by cbn [fst snd]; rewrite ?Es].
  destruct v as [| | | | |fs]; try (by cbn [fst snd]; rewrite ?Es).
  destruct (negb _); [by cbn [fst snd]; rewrite ?Es|].
  pose proof (fold_rebind_keys idMap (Migration.spread (prop (JObj fs) "keyboardBindings"))
                (Migration.spread (prop (JObj fs) "keyboardBindings"), false)
                ltac:(done)) as Hkeys.
  destruct (fold_left _ _ _) as [updated changed]. cbn [fst] in Hkeys.
  destruct changed; cbn [negb]; [|by cbn [fst snd]; rewrite ?Es].
  cbn [fst snd macros marker legacy backup clock settings set_settings].
  repeat split; try done.
  - intros k Hk. cbn [setting prop Migration.spread]. by apply assoc_set_field_ne.
  - unfold binding_keys. cbn [setting prop Migration.spread].
    by rewrite assoc_set_field_eq.
Qed.

End SettingsFrame.

(** ** Reading after the migration *)

Section ReadAfterMigration.

Variable iso : nat -> string.
Variable loadedAt : string * string.

Lemma elem_of_migrated_records (now : string) (records : list json) :
  forall (index : nat) (m : json),
  m ∈ migrated_records now index records <->
  exists k legacy, records !! k = Some legacy /\
                   m = migrated_record now (index + k) legacy.
Proof.
  induction records as [|first rest IH]; intros index m; simpl.
  - split; [by intros ?%not_elem_of_nil|by intros (k & legacy & ? & _)].
  - rewrite elem_of_cons, IH. split.
    + intros [->|(k & legacy & Hk & ->)].
      * exists 0%nat, first. by rewrite Nat.add_0_r.
      * exists (S k), legacy. split; [done|]. f_equal. lia.
    + intros ([|k] & legacy & Hk & ->); simpl in Hk.
      * left. injection Hk as ->. by rewrite Nat.add_0_r.
      * right. exists k, legacy. split; [done|]. f_equal. lia.
Qed.

Lemma migrated_records_ascending (now : string) (records : list json) :
  forall index : nat,
  StronglySorted (fun a b => Storage.id_number a < Storage.id_number b)
    (migrated_records now index records).
Proof.
  induction records as [|first rest IH]; intros index; simpl; constructor; [done|].
  apply Forall_forall. intros m (k & legacy & _ & ->)%elem_of_migrated_records.
  unfold migrated_record, new_id. rewrite !id_number_head. lia.
Qed.

Lemma migrated_record_accepted (now : string) (index : nat) (legacy : json) :
  (index < 999)%nat -> accepted (migrated_record now index legacy) = true.
Proof.
  intros Hi. unfold accepted, migrated_record, new_id.
  cbn [truthy Storage.is_object prop assoc String.eqb Ascii.eqb Bool.eqb andb].
  rewrite isValidMacroId_string_of_Z.
  destruct (String.eqb_spec (string_of_Z (ID_MIN + Z.of_nat index)) "") as [E|_];
    [by apply string_of_Z_nonempty in E|].
  cbn [negb andb]. unfold ID_MIN, ID_MAX.
  apply andb_true_intro. split; apply Z.leb_le; lia.
Qed.

Lemma named_by_id_no_files (w : world) :
  macro_files w = [] -> named_by_id (macros w).
Proof.
  intros Hnil f m Hf Hlook _.
  pose proof (macro_files_nil w f Hnil (mk_is_Some _ _ Hlook)). congruence.
Qed.

(** After the loop has written [records] into a directory that listed
    no per-record file, the records of the directory are the migrated
    ones. *)
Lemma records_of_written (now : string) (records : list json) (w w' : world) :
  macro_files w = [] ->
  (length records <= 999)%nat ->
  macros w' = written_from now 0 records (macros w) ->
  records_of w' ≡ₚ migrated_records now 0 records.
Proof.
  intros Hnil Hn Hm.
  assert (named_by_id (macros w')) as Hnamed
    by (rewrite Hm; by apply named_by_id_written, named_by_id_no_files).
  apply NoDup_Permutation.
  - eapply NoDup_fmap_1, NoDup_id_numbers, Hnamed.
  - eapply (NoDup_fmap_1 Storage.id_number).
    pose proof (migrated_records_ascending now records 0) as Hs.
    induction Hs as [|m ms Hms IH Hall]; [constructor|].
    cbn [fmap list_fmap]. apply NoDup_cons. split; [|done].
    intros (m' & Heq & Hin)%list_elem_of_fmap.
    rewrite Forall_forall in Hall. specialize (Hall m' Hin). lia.
  - intros m. rewrite elem_of_records_of, elem_of_migrated_records. split.
    + intros (f & Hf & Hlook & Hacc). rewrite Hm in Hlook.
      destruct (decide (f ∈ new_file <$> seq 0 (length records))) as [Hin|Hno].
      * apply list_elem_of_fmap in Hin as (k & -> & Hk%elem_of_seq).
        destruct (lookup_lt_is_Some_2 records k) as [legacy Hl]; [lia|].
        rewrite (written_from_lookup now records 0 _ k legacy Hl) in Hlook.
        injection Hlook as <-. eauto.
      * rewrite written_from_other in Hlook.
        -- pose proof (macro_files_nil w f Hnil (mk_is_Some _ _ Hlook)). congruence.
        -- intros k Hk ->. apply Hno, list_elem_of_fmap.
           exists k. split; [done|]. apply elem_of_seq. lia.
    + intros (k & legacy & Hk & ->). exists (new_file k).
      split; [apply new_file_is_macro|]. split.
      * rewrite Hm. apply (written_from_lookup now records 0 _ k legacy Hk).
      * apply migrated_record_accepted. apply lookup_lt_Some in Hk. simpl. lia.
Qed.


End ReadAfterMigration.

(** ** Identifiers *)

Section Identifiers.


(** The check every route makes on its identifier, in terms of the raw
    identifier. *)
Lemma route_check (raw : value) :
  match Storage.normalizeMacroId raw with
  | None => true
  | Some macroId =>
      String.eqb macroId "" || negb (Storage.isValidMacroId (Some (JStr macroId)))
  end = negb (Storage.isValidMacroId raw).
Proof.
  unfold Storage.normalizeMacroId, Storage.isValidMacroId.
  destruct (parseInt (String_ raw)) as [z|] eqn:Hz; [|done].
  simpl. rewrite parseInt_string_of_Z.
  destruct (String.eqb_spec (string_of_Z z) "") as [E|_];
    [by apply string_of_Z_nonempty in E|done].
Qed.

End Identifiers.

(** ** Reading a directory *)

Section ReadingFacts.

Variable iso : nat -> string.
Variable loadedAt : string * string.

Abbreviation readMacros' := (Storage.readMacros iso loadedAt).

Lemma DEFAULT_MACRO_accepted : accepted (Storage.DEFAULT_MACRO loadedAt) = true.
Proof. reflexivity. Qed.

(** With per-record files in the directory a read writes no record:
    the migration and the seeding leave the directory alone. *)
Lemma readMacros_with_files (w : world) :
  macro_files w <> [] ->
  exists w',
    readMacros' w = (Return (Storage.sort_by Storage.id_number (records_of w')), w') /\
    macros w' = macros w.
Proof.
  intros Hf. rewrite readMacros_unfold.
  assert (exists r w1, Migration.migrateLegacyMacrosIfNeeded iso w = (Return r, w1) /\
                       macros w1 = macros w) as (r & w1 & -> & Hm).
  { destruct (marker w) as [t|] eqn:Em.
    - rewrite migrate_with_marker by (rewrite Em; eauto). eauto.
    - rewrite migrate_with_files by done. eexists _, _. split; [done|].
      cbn. by destruct (backed_up_frame w) as (-> & _). }
  assert (seeded loadedAt w1 = w1) as ->.
  { unfold seeded. rewrite (macro_files_same w w1 Hm). by destruct (macro_files w). }
  eauto.
Qed.

(** The records of a directory whose per-record files are one new
    file. *)
Lemma records_of_single (w w' : world) (f : string) (m : json) :
  macro_files w = [] ->
  Storage.isMacroFile f = true ->
  accepted m = true ->
  macros w' = <[f := Doc m]> (macros w) ->
  records_of w' = [m].
Proof.
  intros Hnil Hf Hacc Hm.
  assert (macro_files w' ≡ₚ [f]) as Hfiles.
  { apply NoDup_Permutation; [apply NoDup_macro_files|apply NoDup_singleton|].
    intros g. rewrite elem_of_macro_files, Hm, list_elem_of_singleton. split.
    - intros [Hsome Hg]. destruct (decide (g = f)) as [->|Hne]; [done|].
      rewrite lookup_insert_ne in Hsome by done.
      pose proof (macro_files_nil w g Hnil Hsome). congruence.
    - intros ->. rewrite lookup_insert_eq. eauto. }
  apply Permutation_singleton_r in Hfiles.
  unfold records_of. rewrite Hfiles. cbn [omap list_omap].
  rewrite parseMacroFile_eq, Hm, lookup_insert_eq, Hacc. done.
Qed.

(** X8.  A first read of an installation with nothing to migrate (no
    per-record file, and no legacy file or a marker already) seeds the
    default macro as 9001.macro and returns it alone. *)
Theorem readMacros_seeds_default (w : world) :
  macro_files w = [] ->
  legacy w = None \/ is_Some (marker w) ->
  readMacros' w
  = (Return [Storage.DEFAULT_MACRO loadedAt],
     set_macros (insert "9001.macro" (Doc (Storage.DEFAULT_MACRO loadedAt))) w).
Proof.
  intros Hf Hcase. rewrite readMacros_unfold.
  assert (Migration.migrateLegacyMacrosIfNeeded iso w
          = (Return (Migration.not_migrated
                       (if bool_decide (is_Some (marker w)) then "marker" else "no-legacy")),
             w)) as ->.
  { rewrite migrate_unfold, Hf.
    destruct (marker w) as [t|] eqn:Em.
    - by rewrite bool_decide_true by eauto.
    - rewrite bool_decide_false by (by intros [? ?]).
      destruct Hcase as [->|[? ?]]; done. }
  assert (seeded loadedAt w
          = set_macros (insert "9001.macro" (Doc (Storage.DEFAULT_MACRO loadedAt))) w) as ->.
  { unfold seeded. rewrite Hf. cbn [length Nat.ltb Nat.leb].
    destruct Hcase as [->|Hm].
    - by rewrite (bool_decide_false (is_Some None)) by (by intros [? ?]).
    - rewrite (bool_decide_true _ Hm). by rewrite andb_false_r. }
  by rewrite (records_of_single w _ "9001.macro" (Storage.DEFAULT_MACRO loadedAt)).
Qed.

(** X9.  A first read of an installation whose legacy file cannot be
    migrated yet (unreadable, or more than 999 records) seeds nothing
    and returns no record: the default macro does not mask the legacy
    macros. *)
Theorem readMacros_unmigrated_is_empty (w : world) (c : contents) :
  marker w = None ->
  macro_files w = [] ->
  legacy w = Some c ->
  match c with
  | Raw _ => True
  | Doc v => (length (legacy_records v) > 999)%nat
  end ->
  exists w',
    readMacros' w = (Return [], w') /\
    macros w' = macros w /\ marker w' = None /\ settings w' = settings w.
Proof.
  intros Hm Hf Hl Hc. rewrite readMacros_unfold, migrate_unfold, Hm, Hf, Hl.
  rewrite bool_decide_false by (by intros [? ?]).
  cbn [length Nat.ltb Nat.leb].
  destruct (backed_up_frame w) as (Bmacros & Bmarker & Blegacy & Bsettings & _).
  assert (forall w1, macros w1 = macros w -> marker w1 = None -> legacy w1 = Some c ->
            seeded loadedAt w1 = w1 /\ records_of w1 = []) as Hstay.
  { intros w1 Hm1 Hk1 Hl1. unfold seeded, records_of.
    rewrite (macro_files_same w w1 Hm1), Hf, Hk1, Hl1.
    rewrite bool_decide_true by eauto.
    by rewrite bool_decide_false by (by intros [? ?]). }
  destruct c as [text|v].
  - destruct (Hstay w) as [-> ->]; auto. cbn. eauto.
  - destruct (Z.gtb_spec (Z.of_nat (length (legacy_records v))) (ID_MAX - ID_MIN + 1))
      as [_|Hle]; [|unfold ID_MAX, ID_MIN in Hle; lia].
    destruct (Hstay (backed_up w)) as [-> ->]; try congruence.
    cbn. eexists. split; [done|]. by rewrite Bmacros, Bmarker, Bsettings, Hm.
Qed.

End ReadingFacts.

(** ** Creating records *)

Section CreateFacts.

Variable iso : nat -> string.
Variable loadedAt : string * string.

Lemma macro_files_nonempty (w : world) (f : string) (c : contents) :
  macros w !! f = Some c -> Storage.isMacroFile f = true -> macro_files w <> [].
Proof.
  intros Hlook Hf Hnil.
  pose proof (macro_files_nil w f Hnil (mk_is_Some _ _ Hlook)). congruence.
Qed.

Lemma accepted_with_id (k : Z) (rest : list (string * json)) :
  in_range k -> accepted (JObj (("id", JStr (string_of_Z k)) :: rest)) = true.
Proof.
  intros [H1 H2]. unfold accepted.
  cbn [truthy Storage.is_object prop assoc String.eqb Ascii.eqb Bool.eqb andb].
  rewrite isValidMacroId_string_of_Z.
  destruct (String.eqb_spec (string_of_Z k) "") as [E|_];
    [by apply string_of_Z_nonempty in E|].
  apply Z.leb_le in H1, H2. by rewrite H1, H2.
Qed.

Lemma id_number_with_id (k : Z) (rest : list (string * json)) :
  Storage.id_number (JObj (("id", JStr (string_of_Z k)) :: rest)) = k.
Proof. apply id_number_valid. simpl. apply parseInt_string_of_Z. Qed.

(** What a successful [createMacro] has done. *)
Lemma createMacro_returns (macroData : json) (w w2 : world) (m : json) :
  Storage.createMacro iso loadedAt macroData w = (Return m, w2) ->
  exists ms w1 k,
    Storage.readMacros iso loadedAt w = (Return ms, w1) /\
    in_range k /\ (k ∉ Storage.id_number <$> ms) /\
    Storage.id_number m = k /\
    prop m "id" = Some (JStr (string_of_Z k)) /\
    accepted m = true /\
    macros w2 = <[macro_file (Some (JStr (string_of_Z k))) := Doc m]> (macros w1).
Proof.
  rewrite createMacro_unfold.
  destruct (Storage.readMacros iso loadedAt w) as [[ms|e] w1]; [|done].
  pose proof (scan_ids_spec (list_to_set (Storage.id_number <$> ms)) 999 ID_MIN) as Hscan.
  destruct (Storage.scan_ids _ _ _) as [k|]; [|done].
  destruct Hscan as (Hk & Hfree & _).
  assert (in_range k) as Hr by (unfold in_range, ID_MIN, ID_MAX in *; lia).
  rewrite elem_of_list_to_set in Hfree.
  destruct macroData; try done.
  all: intros [= <- <-]; exists ms, w1, k.
  all: split; [done|]; split; [done|]; split; [done|].
  all: split; [apply id_number_with_id|]; split; [done|].
  all: split; [by apply accepted_with_id|done].
Qed.

Lemma readMacros_returns (w w1 : world) (ms : list json) :
  Storage.readMacros iso loadedAt w = (Return ms, w1) ->
  ms = Storage.sort_by Storage.id_number (records_of w1).
Proof.
  rewrite readMacros_unfold.
  destruct (Migration.migrateLegacyMacrosIfNeeded iso w) as [[r|e] w']; [|done].
  by intros [= <- <-].
Qed.

(** The records of a directory after one more record is written under
    an unused identifier. *)
Lemma records_of_insert (w1 w3 : world) (m : json) (k : Z) :
  named_by_id (macros w1) ->
  accepted m = true ->
  Storage.id_number m = k ->
  (k ∉ Storage.id_number <$> records_of w1) ->
  macros w3 = <[macro_file (Some (JStr (string_of_Z k))) := Doc m]> (macros w1) ->
  records_of w3 ≡ₚ m :: records_of w1.
Proof.
  intros Hdir Hacc Hk Hfree Hm.
  assert (named_by_id (macros w3)) as Hdir3
    by (rewrite Hm; by apply named_by_id_insert).
  apply NoDup_Permutation.
  - apply (NoDup_fmap_1 Storage.id_number), (NoDup_id_numbers _ Hdir3).
  - constructor.
    + intros Hin. apply Hfree. rewrite <- Hk. by apply list_elem_of_fmap_2.
    + apply (NoDup_fmap_1 Storage.id_number), (NoDup_id_numbers _ Hdir).
  - intros m'. rewrite elem_of_cons, !elem_of_records_of. split.
    + intros (f & Hf & Hlook & Ha). rewrite Hm in Hlook.
      destruct (decide (f = macro_file (Some (JStr (string_of_Z k))))) as [->|Hne].
      * rewrite lookup_insert_eq in Hlook. left. congruence.
      * rewrite lookup_insert_ne in Hlook by done. right. eauto.
    + intros [->|(f & Hf & Hlook & Ha)].
      * exists (macro_file (Some (JStr (string_of_Z k)))).
        split; [apply macro_file_is_macro|]. split; [|done].
        by rewrite Hm, lookup_insert_eq.
      * exists f. split; [done|]. split; [|done].
        rewrite Hm, lookup_insert_ne; [done|].
        intros Ef. pose proof (Hdir f m' Hf Hlook Ha) as E. rewrite <- Ef in E.
        apply macro_file_inj in E. apply Hfree. rewrite E.
        apply list_elem_of_fmap_2, elem_of_records_of. eauto.
Qed.

(** X10.  In a directory whose files are named after their records, a
    successful [createMacro] adds its record to the records that a read
    returns and removes none: a read after it returns the new record
    and the records of the read before it. *)
Theorem createMacro_keeps_records (macroData : json) (w w1 w2 : world)
    (ms : list json) (m : json) :
  named_by_id (macros w) ->
  Storage.readMacros iso loadedAt w = (Return ms, w1) ->
  Storage.createMacro iso loadedAt macroData w = (Return m, w2) ->
  exists ms' w3,
    Storage.readMacros iso loadedAt w2 = (Return ms', w3) /\
    ms' ≡ₚ m :: ms /\
    StronglySorted (fun a b => Storage.id_number a < Storage.id_number b) ms'.
Proof.
  intros Hdir Hread Hcreate.
  apply createMacro_returns in Hcreate
    as (ms0 & w0 & k & Hread' & Hr & Hfree & Hk & Hid & Hacc & Hm).
  rewrite Hread in Hread'. injection Hread' as <- <-.
  pose proof (named_by_id_readMacros iso loadedAt w Hdir) as Hdir1.
  rewrite Hread in Hdir1. cbn [snd] in Hdir1.
  pose proof (readMacros_returns _ _ _ Hread) as ->.
  destruct (readMacros_with_files iso loadedAt w2) as (w3 & -> & Hm3).
  { apply (macro_files_nonempty _ (macro_file (Some (JStr (string_of_Z k)))) (Doc m)).
    - by rewrite Hm, lookup_insert_eq.
    - apply macro_file_is_macro. }
  rewrite Hm in Hm3.
  assert (records_of w3 ≡ₚ m :: records_of w1) as Hperm.
  { apply (records_of_insert w1 w3 m k); try done.
    by rewrite <- (sort_by_perm Storage.id_number (records_of w1)). }
  eexists _, _. split; [done|]. split.
  - by rewrite !sort_by_perm.
  - apply sorted_strict; [apply sort_by_sorted|].
    rewrite sort_by_perm. apply NoDup_id_numbers. rewrite Hm3.
    by apply named_by_id_insert.
Qed.

(** X11.  Two successive successful [createMacro] calls return records with
    different identifiers, and both records can be read back after the
    second call. *)
Theorem createMacro_twice (d1 d2 : json) (w w2 w3 : world) (m1 m2 : json) :
  Storage.createMacro iso loadedAt d1 w = (Return m1, w2) ->
  Storage.createMacro iso loadedAt d2 w2 = (Return m2, w3) ->
  prop m1 "id" <> prop m2 "id" /\
  Storage.getMacro (prop m1 "id") w3 = Some m1 /\
  Storage.getMacro (prop m2 "id") w3 = Some m2.
Proof.
  intros (ms1 & w1 & k1 & _ & Hr1 & _ & Hk1 & Hid1 & Hacc1 & Hm1)%createMacro_returns
         (ms2 & w2' & k2 & Hread & Hr2 & Hfree & Hk2 & Hid2 & Hacc2 & Hm2)%createMacro_returns.
  assert (Storage.isMacroFile (macro_file (Some (JStr (string_of_Z k1)))) = true)
    as Hf1 by apply macro_file_is_macro.
  assert (macros w2 !! macro_file (Some (JStr (string_of_Z k1))) = Some (Doc m1))
    as Hlook1 by (by rewrite Hm1, lookup_insert_eq).
  destruct (readMacros_with_files iso loadedAt w2) as (w' & Hread' & Hsame).
  { by apply (macro_files_nonempty _ _ _ Hlook1). }
  rewrite Hread in Hread'. injection Hread' as -> <-.
  assert (k1 <> k2) as Hne.
  { intros <-. apply Hfree. rewrite <- Hk1. apply list_elem_of_fmap_2.
    rewrite sort_by_perm. apply elem_of_records_of.
    exists (macro_file (Some (JStr (string_of_Z k1)))). by rewrite Hsame. }
  assert (forall k, in_range k ->
            Storage.getMacro (Some (JStr (string_of_Z k))) w3
            = Storage.parseMacroFile (macro_file (Some (JStr (string_of_Z k)))) w3)
    as Hget.
  { intros k [Ha Hb]. rewrite (getMacro_of_number _ k) by apply parseInt_string_of_Z.
    apply Z.leb_le in Ha, Hb. by rewrite Ha, Hb. }
  rewrite Hid1, Hid2. split; [|split].
  - intros [= E]. by apply string_of_Z_inj in E.
  - rewrite Hget by done. apply parseMacroFile_Some. split; [|done].
    rewrite Hm2, lookup_insert_ne, Hsame; [done|].
    intros E. by apply macro_file_inj in E.
  - rewrite Hget by done. apply parseMacroFile_Some. split; [|done].
    by rewrite Hm2, lookup_insert_eq.
Qed.

End CreateFacts.

(** ** Updating records *)

Section UpdateFacts.

Variable iso : nat -> string.

Lemma assoc_remove_field_eq {V} (k : string) (fs : list (string * V)) :
  assoc k (remove_field k fs) = None.
Proof.
  induction fs as [|[k' v'] fs IH]; simpl; [done|].
  destruct (String.eqb_spec k k') as [->|Hne]; [done|].
  simpl. by destruct (String.eqb_spec k k').
Qed.

Lemma assoc_remove_field_ne {V} (k k0 : string) (fs : list (string * V)) :
  k <> k0 -> assoc k (remove_field k0 fs) = assoc k fs.
Proof.
  intros Hne. induction fs as [|[k' v'] fs IH]; simpl; [done|].
  destruct (String.eqb_spec k0 k') as [->|Hne']; simpl.
  - by destruct (String.eqb_spec k k').
  - by rewrite IH.
Qed.

Lemma assoc_assign_field_eq (k : string) (v : value) (fs : list (string * json)) :
  assoc k (assign_field k v fs) = v.
Proof.
  destruct v; simpl; [apply assoc_set_field_eq|apply assoc_remove_field_eq].
Qed.

Lemma assoc_assign_field_ne (k k0 : string) (v : value) (fs : list (string * json)) :
  k <> k0 -> assoc k (assign_field k0 v fs) = assoc k fs.
Proof.
  intros Hne.
  destruct v; simpl; [by apply assoc_set_field_ne|by apply assoc_remove_field_ne].
Qed.

Lemma assoc_app {V} (k : string) (l1 l2 : list (string * V)) :
  assoc k (l1 ++ l2) = match assoc k l1 with Some v => Some v | None => assoc k l2 end.
Proof.
  induction l1 as [|[k' v'] l1 IH]; simpl; [done|].
  by destruct (String.eqb k k').
Qed.

(** A key of [{...base, ...extra}] has its last binding of [extra], or
    else that of [base]. *)
Lemma assoc_spread_over (k : string) (extra : list (string * json)) :
  forall base,
  assoc k (Storage.spread_over base extra)
  = match last_binding k extra with Some v => Some v | None => assoc k base end.
Proof.
  unfold Storage.spread_over, last_binding.
  induction extra as [|[k0 v0] extra IH]; intros base; simpl; [done|].
  rewrite IH, reverse_cons, assoc_app.
  destruct (assoc k (reverse extra)); [done|]. simpl.
  destruct (String.eqb_spec k k0) as [->|Hne].
  - apply assoc_set_field_eq.
  - by apply assoc_set_field_ne.
Qed.

Lemma length_append (a b : string) :
  String.length (a +:+ b) = (String.length a + String.length b)%nat.
Proof. induction a as [|c a IH]; simpl; [done|]. by rewrite IH. Qed.

Lemma append_inv_r (a b c : string) : a +:+ c = b +:+ c -> a = b.
Proof.
  revert b. induction a as [|x a IH]; intros [|y b] E; simpl in E.
  - done.
  - apply (f_equal String.length) in E. simpl in E. rewrite length_append in E. lia.
  - apply (f_equal String.length) in E. simpl in E. rewrite length_append in E. lia.
  - injection E as -> E. f_equal. by apply IH.
Qed.

(** What a successful [getMacro] has read. *)
Lemma getMacro_Some (id : value) (w : world) (m : json) :
  Storage.getMacro id w = Some m ->
  exists z,
    parseInt (String_ id) = Some z /\ in_range z /\
    macros w !! macro_file (Some (JStr (string_of_Z z))) = Some (Doc m) /\
    accepted m = true.
Proof.
  destruct (parseInt (String_ id)) as [z|] eqn:Hz.
  - rewrite (getMacro_of_number id z) by done.
    destruct (_ && _) eqn:Hr; [|done].
    intros [Hlook Hacc]%parseMacroFile_Some. exists z.
    apply andb_prop in Hr as [?%Z.leb_le ?%Z.leb_le]. by repeat split.
  - by rewrite getMacro_not_a_number.
Qed.

Lemma getMacro_in_range (z : Z) (w : world) :
  in_range z ->
  Storage.getMacro (Some (JStr (string_of_Z z))) w
  = Storage.parseMacroFile (macro_file (Some (JStr (string_of_Z z)))) w.
Proof.
  intros [Ha Hb]. rewrite (getMacro_of_number _ z) by apply parseInt_string_of_Z.
  apply Z.leb_le in Ha, Hb. by rewrite Ha, Hb.
Qed.

Lemma accepted_id (m : json) :
  accepted m = true ->
  exists fs j, m = JObj fs /\ assoc "id" fs = Some j /\ truthy (Some j) = true /\
               Storage.isValidMacroId (Some j) = true.
Proof.
  unfold accepted. intros (((_ & Ho)%andb_prop & Ht)%andb_prop & Hv)%andb_prop.
  destruct m as [| | | | |fs]; try done. simpl in Ht, Hv.
  destruct (assoc "id" fs) as [j|] eqn:E; [|done]. by exists fs, j.
Qed.

(** [updateMacro], path by path. *)
Lemma updateMacro_unfold (id updates : value) (w : world) :
  Storage.updateMacro iso id updates w =
    match Storage.getMacro id w with
    | None => (Throw (Storage.NOT_FOUND id), w)
    | Some existing =>
        let updated := JObj
          (set_field "updatedAt" (JStr (iso (clock w)))
             (assign_field "createdAt" (prop existing "createdAt")
                (assign_field "id" (prop existing "id")
                   (Storage.spread_over (Migration.spread (Some existing))
                      (Migration.spread updates))))) in
        (Return updated,
         set_macros (insert (macro_file (prop updated "id")) (Doc updated)) (tick w))
    end.
Proof.
  unfold Storage.updateMacro, bind at 1, gets.
  by destruct (Storage.getMacro id w) as [existing|].
Qed.

(** What [updateMacro] does with a record it has found. *)
Lemma updateMacro_Some (id updates : value) (w : world) (existing : json) :
  Storage.getMacro id w = Some existing ->
  exists updated,
    Storage.updateMacro iso id updates w
    = (Return updated,
       set_macros (insert (macro_file (prop existing "id")) (Doc updated)) (tick w)) /\
    prop updated "id" = prop existing "id" /\
    prop updated "createdAt" = prop existing "createdAt" /\
    prop updated "updatedAt" = Some (JStr (iso (clock w))) /\
    (forall k, k ∉ kept_fields ->
       prop updated k = match last_binding k (Migration.spread updates) with
                        | Some v => Some v
                        | None => prop existing k
                        end) /\
    accepted updated = true.
Proof.
  intros Hget. rewrite updateMacro_unfold, Hget. cbv zeta.
  apply getMacro_Some in Hget as (z & _ & _ & _ & Hacc).
  apply accepted_id in Hacc as (fs & j & -> & Hid & Ht & Hv).
  set (updated := JObj _).
  assert (prop updated "id" = Some j) as Hid'.
  { unfold updated. cbn [prop]. rewrite assoc_set_field_ne by done.
    rewrite assoc_assign_field_ne by done. by rewrite assoc_assign_field_eq. }
  exists updated. cbn [prop] in *. rewrite Hid', Hid.
  split; [done|]. split; [done|]. split; [|split; [|split]].
  - unfold updated. cbn [prop]. rewrite assoc_set_field_ne by done.
    by rewrite assoc_assign_field_eq.
  - unfold updated. cbn [prop]. by rewrite assoc_set_field_eq.
  - intros k Hk. unfold kept_fields in Hk.
    rewrite !not_elem_of_cons in Hk. destruct Hk as (H1 & H2 & H3 & _).
    unfold updated. cbn [prop]. rewrite assoc_set_field_ne by done.
    rewrite !assoc_assign_field_ne by done. by rewrite assoc_spread_over.
  - unfold accepted. rewrite Hid', Ht, Hv. done.
Qed.



End UpdateFacts.

(** ** Deleting records *)

Section DeleteFacts.

Variable readSettings : M value.
Variable saveSettings : json -> M unit.

Abbreviation deleteMacro' := (Storage.deleteMacro readSettings saveSettings).
Abbreviation removeBinding' := (Storage.removeBinding readSettings saveSettings).

(** [deleteMacro], path by path: the settings are handled after the
    file is gone, and what is thrown there is dropped. *)
Lemma deleteMacro_unfold (id : value) (w : world) :
  deleteMacro' id w =
    match Storage.getMacro id w with
    | None => (Throw (Storage.NOT_FOUND id), w)
    | Some existing =>
        let filePath := macro_file (prop existing "id") in
        match macros w !! filePath with
        | None => (Throw (Storage.ENOENT filePath), w)
        | Some _ =>
            (Return (JObj [("success", JBool true);
                           ("id", or_else (prop existing "id") JNull)]),
             (removeBinding' existing (set_macros (delete filePath) w)).2)
        end
    end.
Proof.
  unfold Storage.deleteMacro, bind at 1, gets.
  destruct (Storage.getMacro id w) as [existing|]; [|done].
  unfold bind at 1, Storage.unlinkSync, Storage.getMacroPath. cbv zeta.
  destruct (macros w !! macro_file (prop existing "id")); [|done].
  unfold bind at 1, try_catch, ret.
  by destruct (removeBinding' existing _) as [[[]|e] w'].
Qed.

(** The settings step on settings that are an object with an object of
    keyboard bindings. *)
Lemma removeBinding_object (existing : json) (w wr : world)
    (fs kb : list (string * json)) :
  readSettings w = (Return (Some (JObj fs)), wr) ->
  assoc "keyboardBindings" fs = Some (JObj kb) ->
  removeBinding' existing w =
    if bool_decide (is_Some (assoc (action_key existing) kb))
    then saveSettings
           (JObj (set_field "keyboardBindings"
                    (JObj (remove_field (action_key existing) kb)) fs)) wr
    else (Return tt, wr).
Proof.
  intros Hread Hkb. unfold Storage.removeBinding, bind at 1. rewrite Hread.
  cbn [truthy optional_prop prop andb]. rewrite Hkb. cbn [truthy or_else].
  unfold bind at 1. cbn [Storage.has_key Migration.spread]. fold (action_key existing).
  by destruct (bool_decide _).
Qed.


(** A settings manager that leaves the macro directory alone makes the
    settings step leave it alone. *)
Lemma removeBinding_frame (existing : json) (w0 : world) :
  (forall w, macros (readSettings w).2 = macros w) ->
  (forall s w, macros (saveSettings s w).2 = macros w) ->
  macros (removeBinding' existing w0).2 = macros w0.
Proof.
  intros Hrs Hss. unfold Storage.removeBinding, bind at 1.
  pose proof (Hrs w0) as H0.
  destruct (readSettings w0) as [[s|e] w1]; cbn [snd] in *; [|done].
  destruct (_ && _); [|done]. unfold bind at 1.
  destruct (Storage.has_key _ _) as [[|]|e]; try done.
  by rewrite Hss.
Qed.


(** X16.  After the file is removed, [deleteMacro] saves settings only when
    the keyboard bindings have the key [Macro:<id>] of the record: the
    saved settings are the ones read with that key dropped from the
    bindings, every other binding and every other setting as read.  A
    binding that names the macro as its value is not touched. *)
Theorem deleteMacro_unbinds (id : value) (w wr : world) (existing : json)
    (fs kb : list (string * json)) :
  Storage.getMacro id w = Some existing ->
  is_Some (macros w !! macro_file (prop existing "id")) ->
  readSettings (set_macros (delete (macro_file (prop existing "id"))) w)
  = (Return (Some (JObj fs)), wr) ->
  assoc "keyboardBindings" fs = Some (JObj kb) ->
  if bool_decide (is_Some (assoc (action_key existing) kb))
  then
    exists saved kb',
      (deleteMacro' id w).2 = (saveSettings saved wr).2 /\
      prop saved "keyboardBindings" = Some (JObj kb') /\
      assoc (action_key existing) kb' = None /\
      (forall k, k <> action_key existing -> assoc k kb' = assoc k kb) /\
      (forall k, k <> "keyboardBindings" -> prop saved k = assoc k fs)
  else (deleteMacro' id w).2 = wr.
Proof.
  intros Hget [c Hfile] Hread Hkb.
  rewrite deleteMacro_unfold, Hget. cbv zeta. rewrite Hfile. cbn [snd].
  rewrite (removeBinding_object existing _ wr fs kb Hread Hkb).
  destruct (bool_decide _); [|done].
  eexists _, _. split; [done|]. cbn [prop]. split; [apply assoc_set_field_eq|].
  split; [apply assoc_remove_field_eq|]. split.
  - intros k Hk. by apply assoc_remove_field_ne.
  - intros k Hk. by apply assoc_set_field_ne.
Qed.

End DeleteFacts.

(** ** The lines of an expansion *)

Section ExpansionLines.

Variable parseM98Command : string -> option Expander.parsedM98.

Lemma split_lines_single (s : string) :
  Forall (fun l => single_line l = true) (split_lines s).
Proof.
  induction s as [|c s IH]; cbn [split_lines]; [by repeat constructor|].
  destruct (Ascii.eqb c newline) eqn:Hc; [by constructor|].
  destruct (split_lines s) as [|l ls]; [by repeat constructor; simpl; rewrite Hc|].
  apply Forall_cons in IH as [Hl Hls]. constructor; [|done].
  simpl. by rewrite Hc, Hl.
Qed.

Lemma single_line_skip_spaces (s : string) :
  single_line s = true -> single_line (skip_spaces s) = true.
Proof.
  induction s as [|c s IH]; simpl; [done|].
  intros [Hc Hs]%andb_prop. destruct (is_space c); [by apply IH|].
  simpl. by rewrite Hc, Hs.
Qed.

Lemma single_line_trimEnd (s : string) :
  single_line s = true -> single_line (trimEnd s) = true.
Proof.
  induction s as [|c s IH]; simpl; [done|].
  intros [Hc Hs]%andb_prop. specialize (IH Hs).
  destruct (trimEnd s) as [|k kept].
  - destruct (is_space c); simpl; [done|]. by rewrite Hc.
  - cbn [single_line] in *. by rewrite Hc, IH.
Qed.

Lemma split_lines_of_single (s : string) :
  single_line s = true -> split_lines s = [s].
Proof.
  induction s as [|c s IH]; cbn [split_lines single_line]; [done|].
  intros [Hc Hs]%andb_prop. apply negb_true_iff in Hc. by rewrite Hc, IH.
Qed.

(** Splitting a text at a newline splits its lines. *)
Lemma split_lines_app (a b : string) :
  split_lines (a +:+ String newline b) = split_lines a ++ split_lines b.
Proof.
  induction a as [|c a IH].
  - cbn [String.append split_lines]. by rewrite Ascii.eqb_refl.
  - change (String c a +:+ String newline b) with (String c (a +:+ String newline b)).
    cbn [split_lines]. rewrite IH.
    destruct (Ascii.eqb c newline); [done|].
    pose proof (split_lines_nonnil a) as Hnn.
    by destruct (split_lines a) as [|l ls].
Qed.

Lemma split_lines_join (ls : list string) :
  ls <> [] ->
  Forall (fun l => single_line l = true) ls ->
  split_lines (join_with (String newline "") ls) = ls.
Proof.
  induction ls as [|p [|q rest] IH]; intros Hnn Hall; [done| |].
  - apply Forall_cons in Hall as [Hp _]. by apply split_lines_of_single.
  - apply Forall_cons in Hall as [Hp Hrest].
    rewrite join_with_cons by done.
    change (String newline "" +:+ ?x) with (String newline x).
    rewrite split_lines_app, IH, split_lines_of_single by done. done.
Qed.

Lemma trimmed_trim (s : string) : trimmed s -> trim s = s.
Proof.
  intros [Hh Ht]. unfold trim.
  assert (skip_spaces s = s) as -> by (destruct s; simpl in *; by rewrite ?Hh).
  done.
Qed.

Lemma normal_lines (ls : list string) :
  Forall (fun l => l <> "" /\ trimmed l) ls ->
  filter (fun line => line ≠ "") (trim <$> ls) = ls.
Proof.
  induction 1 as [|l ls [Hne Ht] _ IH]; [done|].
  cbn [fmap list_fmap]. rewrite (trimmed_trim l Ht).
  rewrite filter_cons_True by done. f_equal. exact IH.
Qed.

Lemma command_lines_single (text : string) :
  Forall (fun l => single_line l = true) (Expander.command_lines text).
Proof.
  unfold Expander.command_lines. apply Forall_forall.
  intros line (_ & (raw & -> & Hraw)%list_elem_of_fmap)%list_elem_of_filter.
  apply single_line_trimEnd, single_line_skip_spaces.
  pose proof (split_lines_single text) as Hall.
  by eapply Forall_forall in Hall.
Qed.

(** X17.  The lines of two texts joined by a newline are the lines of the
    one followed by the lines of the other. *)
Theorem command_lines_app (a b : string) :
  Expander.command_lines (a +:+ String newline b)
  = Expander.command_lines a ++ Expander.command_lines b.
Proof.
  unfold Expander.command_lines.
  by rewrite split_lines_app, fmap_app, filter_app.
Qed.


End ExpansionLines.

(** ** The routes *)

(** The fields of the record that the create route hands to
    [createMacro]. *)
Lemma create_fields (b : json) (k : string) :
  k ∈ editable_fields ->
  assoc k (assign_field "commands" (prop b "commands")
             (assign_field "description" (prop b "description")
                (assign_field "name" (prop b "name") [])))
  = prop b k.
Proof.
  unfold editable_fields. rewrite !elem_of_cons, elem_of_nil.
  intros [->|[->|[->|[]]]].
  - rewrite !assoc_assign_field_ne by done. apply assoc_assign_field_eq.
  - rewrite assoc_assign_field_ne by done. apply assoc_assign_field_eq.
  - apply assoc_assign_field_eq.
Qed.

Lemma last_binding_updates (b : json) (k : string) :
  last_binding k (assign_field "commands" (prop b "commands")
                    (assign_field "description" (prop b "description")
                       (assign_field "name" (prop b "name") [])))
  = if bool_decide (k ∈ editable_fields) then prop b k else None.
Proof.
  unfold last_binding, editable_fields.
  assert (k = "name" \/ k = "description" \/ k = "commands" \/
          (k <> "name" /\ k <> "description" /\ k <> "commands")) as Hcase.
  { destruct (decide (k = "name")), (decide (k = "description")),
             (decide (k = "commands")); tauto. }
  destruct Hcase as [->|[->|[->|(H1 & H2 & H3)]]].
  1-3: rewrite bool_decide_true by (rewrite !elem_of_cons; tauto).
  1-3: destruct (prop b "name") as [n|], (prop b "description") as [d|],
                (prop b "commands") as [c|]; reflexivity.
  rewrite bool_decide_false by (rewrite !elem_of_cons, elem_of_nil; tauto).
  apply String.eqb_neq in H1, H2, H3.
  destruct (prop b "name") as [n|], (prop b "description") as [d|],
           (prop b "commands") as [c|].
  all: cbn [assign_field set_field remove_field String.eqb Ascii.eqb Bool.eqb].
  all: unfold reverse; cbn [rev_append assoc]; by rewrite ?H1, ?H2, ?H3.
Qed.

Section HandlerFacts.

Variable iso : nat -> string.
Variable loadedAt : string * string.
Variable readSettings : M value.
Variable saveSettings : json -> M unit.

Abbreviation handleGet' := Handlers.handleGet.
Abbreviation handleCreate' := (Handlers.handleCreate iso loadedAt).
Abbreviation handleUpdate' := (Handlers.handleUpdate iso).
Abbreviation handleDelete' := (Handlers.handleDelete readSettings saveSettings).

(** What the routes make of a raw identifier. *)
Lemma route_id (id : value) :
  match parseInt (String_ id) with
  | Some z =>
      Storage.normalizeMacroId id = Some (string_of_Z z) /\
      String.eqb (string_of_Z z) "" = false /\
      Storage.isValidMacroId (Some (JStr (string_of_Z z))) = Storage.isValidMacroId id /\
      forall w, Storage.getMacro (Some (JStr (string_of_Z z))) w = Storage.getMacro id w
  | None =>
      Storage.normalizeMacroId id = None /\ Storage.isValidMacroId id = false
  end.
Proof.
  unfold Storage.normalizeMacroId, Storage.isValidMacroId.
  destruct (parseInt (String_ id)) as [z|] eqn:Hz; [|done].
  split; [done|]. split.
  - destruct (String.eqb_spec (string_of_Z z) "") as [E|_];
      [by apply string_of_Z_nonempty in E|done].
  - split; [simpl; by rewrite parseInt_string_of_Z|].
    intros w. rewrite (getMacro_of_number id z) by done.
    by rewrite (getMacro_of_number _ z) by apply parseInt_string_of_Z.
Qed.

Lemma getMacro_invalid (id : value) (w : world) :
  Storage.isValidMacroId id = false -> Storage.getMacro id w = None.
Proof.
  intros Hv. destruct (Storage.getMacro id w) as [m|] eqn:Hget; [|done].
  apply getMacro_Some in Hget as (z & Hz & [Ha Hb] & _).
  unfold Storage.isValidMacroId in Hv. rewrite Hz in Hv.
  apply Z.leb_le in Ha, Hb. by rewrite Ha, Hb in Hv.
Qed.

Lemma handleGet_eq (id : value) (w : world) :
  handleGet' id w
  = (Return (if Storage.isValidMacroId id
             then match Storage.getMacro id w with
                  | Some m => Handlers.Reply 200 m
                  | None => Handlers.failure 404 "Macro not found"
                  end
             else Handlers.BAD_ID),
     w).
Proof.
  pose proof (route_id id) as H. unfold Handlers.handleGet, try_catch.
  destruct (parseInt (String_ id)) as [z|].
  - destruct H as (-> & -> & -> & Hget). cbn [orb].
    destruct (Storage.isValidMacroId id); [|done]. cbn [negb].
    unfold bind, gets. rewrite Hget. by destruct (Storage.getMacro id w).
  - by destruct H as (-> & ->).
Qed.

(** X19.  The get route answers 400 for an identifier that is not valid, 404
    when [getMacro] finds no record, and the record otherwise; it
    never answers 500 and never changes a file. *)
Theorem handleGet_reply (id : value) (w : world) :
  handleGet' id w
  = (Return (if Storage.isValidMacroId id
             then match Storage.getMacro id w with
                  | Some m => Handlers.Reply 200 m
                  | None => Handlers.failure 404 "Macro not found"
                  end
             else Handlers.BAD_ID),
     w).
Proof. apply handleGet_eq. Qed.

(** X20.  The update and delete routes answer 400 for an identifier that is
    not valid, before the storage is touched. *)
Theorem routes_reject_bad_ids (id : value) (body : json) (w : world) :
  Storage.isValidMacroId id = false ->
  body <> JNull ->
  handleUpdate' id (Some body) w = (Return Handlers.BAD_ID, w) /\
  handleDelete' id w = (Return Handlers.BAD_ID, w).
Proof.
  intros Hv Hb. pose proof (route_id id) as H.
  unfold Handlers.handleUpdate, Handlers.handleDelete, try_catch, bind.
  assert (Handlers.destructure (Some body) w = (Return body, w)) as ->
    by (by destruct body).
  destruct (parseInt (String_ id)) as [z|].
  - destruct H as (-> & -> & -> & _). by rewrite Hv.
  - by destruct H as (-> & _).
Qed.

(** X21.  The create route answers 400 when the body has no name or no
    commands (missing, empty, or otherwise falsy), and 500 when there
    is no body; in both cases before the storage is touched, so that
    not even the migration runs. *)
Theorem handleCreate_validates (body : value) (w : world) :
  match body with
  | None | Some JNull =>
      handleCreate' body w
      = (Return (Handlers.failure 500 "Failed to create macro"), w)
  | Some b =>
      truthy (prop b "name") && truthy (prop b "commands") = false ->
      handleCreate' body w
      = (Return (Handlers.failure 400 "Name and commands are required"), w)
  end.
Proof.
  unfold Handlers.handleCreate, try_catch, bind.
  destruct body as [b|]; [|done].
  destruct b; try done.
  all: cbn [Handlers.destructure ret]; intros Hf.
  all: apply andb_false_iff in Hf as [->| ->]; cbn [negb orb]; try done.
  all: by rewrite orb_true_r.
Qed.

Lemma includes_app (a b sub : string) :
  includes b sub = true -> includes (a +:+ b) sub = true.
Proof.
  intros Hb. induction a as [|c a IH]; [done|].
  change (String c a +:+ b) with (String c (a +:+ b)).
  cbn [includes]. rewrite IH. apply orb_true_r.
Qed.

Lemma not_found_reply (message : string) (id : value) :
  Handlers.not_found_or message (Storage.NOT_FOUND id)
  = Handlers.failure 404 ("Macro with id " +:+ String_ id +:+ " not found").
Proof.
  unfold Handlers.not_found_or, Storage.NOT_FOUND. cbn [Routes.error_message].
  rewrite includes_app; [done|]. by apply includes_app.
Qed.

Lemma not_found_or_code (message : string) (e : error) :
  Handlers.code (Handlers.not_found_or message e) <> 200.
Proof. unfold Handlers.not_found_or. by destruct (includes _ _). Qed.

(** X22.  A record the create route answers with (201) has the name and the
    commands of the request and its description, or the empty one; the
    get route then answers that record for its identifier. *)
Theorem handleCreate_round_trip (b : json) (w w2 : world) (r : Handlers.reply) :
  handleCreate' (Some b) w = (Return r, w2) ->
  Handlers.code r = 201 ->
  prop (Handlers.payload r) "name" = prop b "name" /\
  prop (Handlers.payload r) "commands" = prop b "commands" /\
  prop (Handlers.payload r) "description"
  = Some (or_else (prop b "description") (JStr "")) /\
  handleGet' (prop (Handlers.payload r) "id") w2
  = (Return (Handlers.Reply 200 (Handlers.payload r)), w2).
Proof.
  unfold Handlers.handleCreate, try_catch, bind at 1.
  destruct (Handlers.destructure (Some b) w) as [[b'|e] w0] eqn:Hd;
    [|by intros [= <- <-]].
  assert (b' = b /\ w0 = w) as [-> ->] by (destruct b; by injection Hd).
  destruct (truthy (prop b "name")) eqn:Hn; [|by intros [= <- <-]].
  destruct (truthy (prop b "commands")) eqn:Hc; [|by intros [= <- <-]].
  cbn [negb orb]. unfold bind at 1.
  set (macroData := JObj _).
  destruct (Storage.createMacro iso loadedAt macroData w) as [[m|e] w'] eqn:Hrun;
    [|by intros [= <- <-]].
  intros [= <- <-] _. cbn [Handlers.payload].
  pose proof (createMacro_returns _ _ _ _ _ _ Hrun)
    as (ms & w1 & k & Hread & Hr & _ & _ & Hid & Hacc & Hm).
  rewrite createMacro_unfold, Hread in Hrun.
  destruct (Storage.scan_ids _ _ _) as [k'|]; [|done].
  unfold macroData in Hrun. injection Hrun as Em _. rewrite Hid.
  split; [|split; [|split]].
  - rewrite <- Em. cbn [prop assoc String.eqb Ascii.eqb Bool.eqb].
    rewrite create_fields by apply list_elem_of_here.
    destruct (prop b "name"); [|done]. unfold or_else. by rewrite Hn.
  - rewrite <- Em. cbn [prop assoc String.eqb Ascii.eqb Bool.eqb].
    rewrite create_fields
      by apply list_elem_of_further, list_elem_of_further, list_elem_of_here.
    destruct (prop b "commands"); [|done]. unfold or_else. by rewrite Hc.
  - rewrite <- Em. cbn [prop assoc String.eqb Ascii.eqb Bool.eqb].
    by rewrite create_fields by apply list_elem_of_further, list_elem_of_here.
  - rewrite handleGet_eq, isValidMacroId_string_of_Z.
    destruct Hr as [Ha Hb]. pose proof Ha as Ha'. pose proof Hb as Hb'.
    apply Z.leb_le in Ha', Hb'. rewrite Ha', Hb'. cbn [andb].
    rewrite getMacro_in_range by done.
    assert (Storage.parseMacroFile (macro_file (Some (JStr (string_of_Z k)))) w'
            = Some m) as ->; [|done].
    apply parseMacroFile_Some. split; [|exact Hacc]. by rewrite Hm, lookup_insert_eq.
Qed.


(** X24.  For a valid identifier that [getMacro] finds no record for, the
    update and delete routes answer 404 with a message that names the
    normalized identifier, and change nothing. *)
Theorem routes_unknown_id (id : value) (b : json) (w : world) :
  b <> JNull ->
  Storage.isValidMacroId id = true ->
  Storage.getMacro id w = None ->
  exists normalized,
    Storage.normalizeMacroId id = Some normalized /\
    let answer :=
      Handlers.failure 404 ("Macro with id " +:+ normalized +:+ " not found") in
    handleUpdate' id (Some b) w = (Return answer, w) /\
    handleDelete' id w = (Return answer, w).
Proof.
  intros Hb Hvalid Hget. pose proof (route_id id) as H.
  destruct (parseInt (String_ id)) as [z|];
    [|destruct H as [_ H]; congruence].
  destruct H as (Hn & He & Hv & Hg). rewrite <- Hg in Hget.
  exists (string_of_Z z). split; [done|]. cbv zeta.
  unfold Handlers.handleUpdate, Handlers.handleDelete, try_catch, bind at 1 3.
  assert (Handlers.destructure (Some b) w = (Return b, w)) as ->
    by (by destruct b).
  rewrite Hn, He, Hv, Hvalid. cbn [negb orb]. unfold bind.
  rewrite updateMacro_unfold, deleteMacro_unfold, Hget.
  unfold ret. by rewrite !not_found_reply.
Qed.


(** A 201 of the create route is a record [createMacro] returned. *)
Lemma handleCreate_created (b : json) (w w2 : world) (r : Handlers.reply) :
  handleCreate' (Some b) w = (Return r, w2) ->
  Handlers.code r = 201 ->
  exists macroData,
    Storage.createMacro iso loadedAt macroData w = (Return (Handlers.payload r), w2).
Proof.
  unfold Handlers.handleCreate, try_catch, bind at 1.
  destruct (Handlers.destructure (Some b) w) as [[b'|e] w0] eqn:Hd;
    [|by intros [= <- <-]].
  assert (b' = b /\ w0 = w) as [-> ->] by (destruct b; by injection Hd).
  destruct (negb _ || negb _); [by intros [= <- <-]|]. unfold bind at 1.
  match goal with
  | |- context [Storage.createMacro iso loadedAt ?d w] =>
      destruct (Storage.createMacro iso loadedAt d w) as [[m|e] w'] eqn:Hrun;
        [|by intros [= <- <-]]; intros [= <- <-] _; by exists d
  end.
Qed.

(** X26.  After a 201 of the create route the list route answers 200 with
    the records in ascending order of identifier, the created record
    among them. *)
Theorem handleList_after_create (b : json) (w w2 : world) (r : Handlers.reply) :
  handleCreate' (Some b) w = (Return r, w2) ->
  Handlers.code r = 201 ->
  exists ms w3,
    Handlers.handleList iso loadedAt w2 = (Return (Handlers.Reply 200 (JArr ms)), w3) /\
    Handlers.payload r ∈ ms /\
    Sorted (fun a b => Storage.id_number a <= Storage.id_number b) ms.
Proof.
  intros Hrun Hcode.
  destruct (handleCreate_created b w w2 r Hrun Hcode) as (macroData & Hcreate).
  destruct (createMacro_returns _ _ _ _ _ _ Hcreate)
    as (ms0 & w1 & k & _ & _ & _ & _ & _ & Hacc & Hm).
  assert (macros w2 !! macro_file (Some (JStr (string_of_Z k)))
          = Some (Doc (Handlers.payload r))) as Hlook
    by (by rewrite Hm, lookup_insert_eq).
  destruct (readMacros_with_files iso loadedAt w2) as (w3 & Hread & Hsame).
  { apply (macro_files_nonempty _ _ _ Hlook), macro_file_is_macro. }
  eexists _, w3. unfold Handlers.handleList, try_catch, bind. rewrite Hread.
  split; [done|]. split; [|apply sort_by_sorted].
  rewrite sort_by_perm. apply elem_of_records_of.
  exists (macro_file (Some (JStr (string_of_Z k)))).
  split; [apply macro_file_is_macro|]. by rewrite Hsame.
Qed.

End HandlerFacts.

(** ** The execute route *)

Lemma set_field_length {V} (k : string) (v : V) (fs : list (string * V)) :
  (length fs <= length (set_field k v fs))%nat.
Proof.
  induction fs as [|[k' v'] fs IH]; simpl; [lia|].
  destruct (String.eqb k k'); simpl; lia.
Qed.

Lemma merge_length {V} (extra base : list (string * V)) :
  (length base <= length (Routes.merge base extra))%nat.
Proof.
  unfold Routes.merge. revert base.
  induction extra as [|[k v] extra IH]; intros base; simpl; [lia|].
  etrans; [apply (set_field_length k v)|apply IH].
Qed.

(** A key of the merged metadata has its last binding in the metadata
    of the command, or else its tag. *)
Lemma assoc_merge (k : string) (extra : list (string * json)) :
  forall base : list (string * value),
  assoc k (Routes.merge base (List.map (fun kv => (kv.1, Some kv.2)) extra))
  = match last_binding k extra with
    | Some v => Some (Some v)
    | None => assoc k base
    end.
Proof.
  unfold Routes.merge, last_binding.
  induction extra as [|[k0 v0] extra IH]; intros base; simpl; [done|].
  rewrite IH, reverse_cons, assoc_app.
  destruct (assoc k (reverse extra)); [done|]. simpl.
  destruct (String.eqb_spec k k0) as [->|Hne].
  - apply assoc_set_field_eq.
  - by apply assoc_set_field_ne.
Qed.

(** The draws of the stamp go up along the commands. *)
Lemma draw_numbers_ge (cmds : list json) :
  forall (n i a : nat), draw_numbers n cmds !! i = Some (Some a) -> (n <= a)%nat.
Proof.
  induction cmds as [|cmd rest IH]; intros n i a; [done|]. simpl.
  destruct (truthy (prop cmd "commandId")); destruct i as [|i]; simpl.
  - done.
  - apply IH.
  - intros [= <-]. lia.
  - intros H%IH. lia.
Qed.

Lemma draw_numbers_lt (cmds : list json) :
  forall (n i j a b : nat),
  (i < j)%nat ->
  draw_numbers n cmds !! i = Some (Some a) ->
  draw_numbers n cmds !! j = Some (Some b) ->
  (a < b)%nat.
Proof.
  induction cmds as [|cmd rest IH]; intros n i j a b Hij; [done|]. simpl.
  destruct j as [|j]; [lia|].
  destruct (truthy (prop cmd "commandId")); destruct i as [|i]; simpl.
  - done.
  - apply IH. lia.
  - intros [= <-] H%draw_numbers_ge. lia.
  - apply IH. lia.
Qed.

Lemma draw_numbers_lookup (cmds : list json) :
  forall (n i : nat) (cmd : json) (number : option nat),
  cmds !! i = Some cmd ->
  draw_numbers n cmds !! i = Some number ->
  truthy (prop cmd "commandId") = false ->
  is_Some number.
Proof.
  induction cmds as [|c rest IH]; intros n i cmd number; [done|]. simpl.
  destruct i as [|i]; simpl.
  - intros [= ->] Hn Hf. rewrite Hf in Hn. injection Hn as <-. eauto.
  - destruct (truthy (prop c "commandId")); simpl; apply IH.
Qed.

Section ExecuteFacts.

Context {X : Type}.
Variable cncController : bool.
Variables isConnected lastStatus : X -> value.
Variable process :
  string -> Routes.pluginContext -> X -> outcome Routes.processResult * X.
Variable sendCommand : value -> Routes.sendOptions -> X -> outcome unit * X.
Variable stamp : nat -> string.

Abbreviation handleExecute' :=
  (Routes.handleExecute cncController isConnected lastStatus process sendCommand stamp).
Abbreviation forward' := (Routes.forward sendCommand stamp).

(** The options of one dispatch and the draws it takes. *)
Lemma prepared_options (macroId : string) (macroName : value) (contextId : string)
    (cmd : json) (s : Routes.env X) (rejected : bool) :
  let number := if truthy (prop cmd "commandId") then None else Some (Routes.draws s) in
  dispatch_of stamp macroId macroName contextId (cmd, number)
    (prop cmd "command", (prepared stamp macroId macroName contextId cmd s).1, rejected) /\
  Routes.draws (prepared stamp macroId macroName contextId cmd s).2
  = if truthy (prop cmd "commandId") then Routes.draws s else S (Routes.draws s).
Proof.
  cbv zeta. unfold prepared, dispatch_of. cbn [fst snd].
  match goal with
  | |- context [(0 <? length ?l)%nat] =>
      assert ((0 <? length l)%nat = true) as Hlen
  end.
  { apply Nat.ltb_lt. eapply Nat.lt_le_trans; [|apply merge_length]. simpl. lia. }
  rewrite !Hlen.
  destruct (truthy (prop cmd "commandId")); cbn [fst snd Routes.displayCommand
    Routes.meta Routes.commandId Routes.draws].
  all: split; [|done].
  all: split; [done|]; split; [done|]; split; [|done].
  all: eexists; split; [done|]; intros k; apply assoc_merge.
Qed.

(** What the loop over the commands sends: each dispatch has the
    options of its command, the draws of the stamp going on from one
    command to the next. *)
Lemma forward_options (macroId : string) (macroName : value) (contextId : string)
    (cmds : list json) :
  forall s : Routes.env X,
  exists sent,
    Routes.trace (forward' macroId macroName contextId cmds s).2
    = Routes.trace s ++ dispatched sent /\
    Forall2 (dispatch_of stamp macroId macroName contextId)
      (take (length sent) (zip cmds (draw_numbers (Routes.draws s) cmds))) sent.
Proof.
  induction cmds as [|cmd rest IH]; intros s.
  - exists []. cbn. rewrite app_nil_r. split; [done|constructor].
  - assert (cmd = JNull \/ cmd <> JNull) as [->|Hnn]
      by (destruct cmd; (by left) || (by right)).
    { exists []. cbn. rewrite app_nil_r. split; [done|constructor]. }
    rewrite forward_cons by done.
    destruct (prepared_frame stamp macroId macroName contextId cmd s) as (Ht & Hf & Hd).
    pose proof (fun r => prepared_options macroId macroName contextId cmd s r) as Hopt.
    destruct (prepared stamp macroId macroName contextId cmd s) as [options s1].
    cbn [fst snd] in Ht, Hf, Hd, Hopt. rewrite await_sendCommand_eq.
    destruct (sendCommand (prop cmd "command") options (Routes.device s1))
      as [[[]|e] x] eqn:Es.
    + cbn zeta iota beta.
      destruct (IH (Routes.Env (Routes.files s1) x (Routes.draws s1)
                  (Routes.trace s1 ++ dispatched [(prop cmd "command", options, false)])))
        as (sent & Htrace & Hall).
      exists ((prop cmd "command", options, false) :: sent).
      destruct (forward' macroId macroName contextId rest _) as [o s2].
      cbn [fst snd Routes.trace Routes.draws] in *.
      rewrite Htrace, Ht. split; [by rewrite <- app_assoc|].
      destruct (Hopt false) as [Hd0 Hdraws]. rewrite Hdraws in Hall.
      cbn [draw_numbers length].
      destruct (truthy (prop cmd "commandId")); cbn [zip_with take];
        by constructor.
    + exists [(prop cmd "command", options, true)]. cbn [fst snd Routes.trace].
      rewrite Ht. split; [done|].
      destruct (Hopt true) as [Hd0 _]. cbn [draw_numbers length].
      destruct (truthy (prop cmd "commandId")); cbn [zip_with take];
        rewrite ?take_0; (constructor; [exact Hd0|constructor]).
Qed.

(** Dispatches of commands without an identifier of their own are
    named by different draws of the stamp. *)
Lemma planned_ids_differ (macroId : string) (macroName : value) (contextId : string)
    (cmds : list json) (n : nat) (sent : list (value * Routes.sendOptions * bool)) :
  Forall2 (dispatch_of stamp macroId macroName contextId)
    (take (length sent) (zip cmds (draw_numbers n cmds))) sent ->
  (forall a b, stamp a = stamp b -> a = b) ->
  forall i j di dj ci cj,
    i <> j ->
    sent !! i = Some di -> sent !! j = Some dj ->
    cmds !! i = Some ci -> cmds !! j = Some cj ->
    truthy (prop ci "commandId") = false ->
    truthy (prop cj "commandId") = false ->
    Routes.commandId di.1.2 <> Routes.commandId dj.1.2.
Proof.
  intros Hall Hinj i j di dj ci cj Hij Hi Hj Hci Hcj Hfi Hfj.
  assert (forall k d c,
            sent !! k = Some d -> cmds !! k = Some c ->
            truthy (prop c "commandId") = false ->
            exists a, draw_numbers n cmds !! k = Some (Some a) /\
                      Routes.commandId d.1.2 = JStr (contextId +:+ "-" +:+ stamp a))
    as Hname.
  { intros k d c Hk Hc Hf.
    destruct (Forall2_lookup_r _ _ _ _ _ Hall Hk) as ([c' number] & Hp & Hd).
    apply lookup_take_Some in Hp as [Hp _].
    apply lookup_zip_Some in Hp as [Hc' Hnum].
    rewrite Hc in Hc'. injection Hc' as <-.
    destruct (draw_numbers_lookup cmds n k c number Hc Hnum Hf) as [a ->].
    exists a. split; [done|]. by destruct Hd as (_ & _ & _ & ->). }
  destruct (Hname i di ci Hi Hci Hfi) as (a & Ha & ->).
  destruct (Hname j dj cj Hj Hcj Hfj) as (b & Hb & ->).
  intros [= E]. apply String.app_inj in E. injection E as E. apply Hinj in E.
  destruct (Nat.lt_total i j) as [Hlt|[Heq|Hgt]]; [|done|].
  - pose proof (draw_numbers_lt cmds n i j a b Hlt Ha Hb). lia.
  - pose proof (draw_numbers_lt cmds n j i b a Hgt Hb Ha). lia.
Qed.

(** X27.  The execute route writes no file. *)
Theorem execute_keeps_files (id : value) (s : Routes.env X) :
  Routes.files (handleExecute' id s).2 = Routes.files s.
Proof.
  rewrite handleExecute_unfold.
  destruct (negb _); [done|].
  destruct (Storage.normalizeMacroId id) as [macroId|]; [|done].
  destruct (_ || _); [done|].
  destruct (Storage.getMacro _ _) as [macro|]; [|done]. cbn zeta.
  destruct (process _ _ _) as [[pr|e] x]; [|done].
  destruct (negb _); [done|].
  destruct (forward_shape sendCommand stamp macroId (prop macro "name")
              (Routes.ctx_commandId (context_of lastStatus stamp macroId macro s))
              (Routes.commands pr)
              (Routes.Env (Routes.files s) x (S (Routes.draws s))
                 (Routes.trace s ++
                  [Routes.Processed ("M98 P" +:+ macroId)
                     (context_of lastStatus stamp macroId macro s)])))
    as (sent & _ & Hfiles & _).
  by destruct (Routes.forward _ _ _ _ _ _ _) as [[[]|e] s3].
Qed.

(** X28.  With the controller connected, an identifier that [getMacro] finds
    no record for is answered 400 when it is not valid and 404 when it
    is, and nothing else happens: the pipeline is not asked and no
    command is sent. *)
Theorem execute_checks_first (id : value) (s : Routes.env X) :
  connected cncController isConnected s = true ->
  Storage.getMacro id (Routes.files s) = None ->
  handleExecute' id s
  = (Return tt,
     logged (Routes.Responded (if Storage.isValidMacroId id
                               then not_found_response else bad_id_response)) s).
Proof.
  intros Hc Hget. rewrite handleExecute_unfold, Hc. cbn [negb].
  pose proof (route_id id) as H.
  destruct (parseInt (String_ id)) as [z|].
  - destruct H as (-> & -> & -> & Hg). rewrite Hg, Hget. cbn [orb].
    by destruct (Storage.isValidMacroId id).
  - by destruct H as (-> & ->).
Qed.


End ExecuteFacts.

(** ** The further properties on sample installations *)

Lemma stored_install_named : named_by_id (macros stored_install).
Proof.
  intros f m Hf Hlook Hacc. unfold stored_install in Hlook. cbn [macros] in Hlook.
  apply lookup_insert_Some in Hlook as [[<- [= <-]]|[_ Hlook]]; [reflexivity|].
  apply lookup_insert_Some in Hlook as [[<- [= <-]]|[_ Hlook]]; [reflexivity|].
  by rewrite lookup_empty in Hlook.
Qed.

Lemma migration_with_existing_files_witness :
  exists w',
    Migration.migrateLegacyMacrosIfNeeded sample_iso (set_marker None stored_install)
    = (Return (Migration.not_migrated "existing"), w') /\
    marker w' = Some (sample_iso 0) /\
    macros w' = macros stored_install.
Proof.
  destruct (migration_with_existing_files sample_iso (set_marker None stored_install))
    as (w' & Hrun & Hmarker & Hmacros & _).
  - reflexivity.
  - vm_compute. discriminate.
  - exists w'. split; [exact Hrun|]. split; [exact Hmarker|exact Hmacros].
Defined.



Lemma readMacros_seeds_default_witness :
  Storage.readMacros sample_iso sample_loadedAt empty_world
  = (Return [Storage.DEFAULT_MACRO sample_loadedAt],
     set_macros (insert "9001.macro" (Doc (Storage.DEFAULT_MACRO sample_loadedAt)))
       empty_world).
Proof.
  apply (readMacros_seeds_default sample_iso sample_loadedAt empty_world).
  - reflexivity.
  - left. reflexivity.
Defined.

Lemma readMacros_unmigrated_is_empty_witness :
  let w := World ∅ None (Some (Raw "[{")) None None 0 in
  exists w',
    Storage.readMacros sample_iso sample_loadedAt w = (Return [], w') /\
    macros w' = ∅ /\ marker w' = None.
Proof.
  cbv zeta.
  destruct (readMacros_unmigrated_is_empty sample_iso sample_loadedAt
              (World ∅ None (Some (Raw "[{")) None None 0) (Raw "[{"))
    as (w' & Hrun & Hmacros & Hmarker & _).
  - reflexivity.
  - reflexivity.
  - reflexivity.
  - exact I.
  - exists w'. split; [exact Hrun|]. split; [exact Hmacros|exact Hmarker].
Defined.

Lemma createMacro_keeps_records_witness :
  exists ms' w3,
    Storage.readMacros sample_iso sample_loadedAt parked_install = (Return ms', w3) /\
    ms' ≡ₚ [park_record "9002" (sample_iso 0);
            record "9001" "Home" "G53 G0 Z0"; record "9003" "Probe" "G38.2 Z-10 F50"].
Proof.
  destruct (createMacro_keeps_records sample_iso sample_loadedAt park_request
              stored_install stored_install parked_install
              [record "9001" "Home" "G53 G0 Z0"; record "9003" "Probe" "G38.2 Z-10 F50"]
              (park_record "9002" (sample_iso 0)))
    as (ms' & w3 & Hrun & Hperm & _).
  - exact stored_install_named.
  - vm_compute. reflexivity.
  - vm_compute. reflexivity.
  - exists ms', w3. split; [exact Hrun|exact Hperm].
Defined.

Lemma createMacro_twice_witness :
  let second := park_record "9004" (sample_iso 1) in
  let w3 := set_macros (insert "9004.macro" (Doc second)) (tick parked_install) in
  Storage.getMacro (Some (JStr "9002")) w3 = Some (park_record "9002" (sample_iso 0)) /\
  Storage.getMacro (Some (JStr "9004")) w3 = Some second.
Proof.
  cbv zeta.
  destruct (createMacro_twice sample_iso sample_loadedAt park_request park_request
              stored_install parked_install
              (set_macros (insert "9004.macro" (Doc (park_record "9004" (sample_iso 1))))
                 (tick parked_install))
              (park_record "9002" (sample_iso 0)) (park_record "9004" (sample_iso 1)))
    as (_ & Hfirst & Hsecond).
  - vm_compute. reflexivity.
  - vm_compute. reflexivity.
  - split; [exact Hfirst|exact Hsecond].
Defined.


Lemma sample_settings_frame :
  (forall w0, macros (sample_readSettings w0).2 = macros w0) /\
  (forall s w0, macros (sample_saveSettings s w0).2 = macros w0).
Proof.
  split.
  - intros w0. unfold sample_readSettings. by destruct (settings w0) as [[text|v]|].
  - done.
Qed.


Lemma deleteMacro_unbinds_witness :
  exists saved kb',
    (Storage.deleteMacro sample_readSettings sample_saveSettings (Some (JStr "9001"))
       bound_install).2
    = (sample_saveSettings saved (set_macros (delete "9001.macro") bound_install)).2 /\
    prop saved "keyboardBindings" = Some (JObj kb') /\
    assoc "Macro:9001" kb' = None /\
    assoc "Macro:9003" kb' = Some (JStr "F3") /\
    prop saved "theme" = Some (JStr "dark").
Proof.
  pose proof (deleteMacro_unbinds sample_readSettings sample_saveSettings
                (Some (JStr "9001")) bound_install
                (set_macros (delete "9001.macro") bound_install)
                (record "9001" "Home" "G53 G0 Z0")
                [("theme", JStr "dark");
                 ("keyboardBindings",
                  JObj [("Macro:9001", JStr "F1"); ("Macro:9003", JStr "F3")])]
                [("Macro:9001", JStr "F1"); ("Macro:9003", JStr "F3")]
                ltac:(vm_compute; reflexivity) ltac:(vm_compute; eauto)
                ltac:(vm_compute; reflexivity) ltac:(reflexivity)) as H.
  rewrite bool_decide_true in H by (vm_compute; eauto).
  destruct H as (saved & kb' & Hrun & Hkb & Hgone & Hothers & Hsettings).
  exists saved, kb'. split; [exact Hrun|]. split; [exact Hkb|].
  split; [exact Hgone|]. split.
  - rewrite (Hothers "Macro:9003") by discriminate. reflexivity.
  - rewrite (Hsettings "theme") by discriminate. reflexivity.
Defined.

Lemma routes_reject_bad_ids_witness :
  Handlers.handleUpdate sample_iso (Some (JStr "9000"))
    (Some (JObj [("name", JStr "Home all")])) stored_install
  = (Return Handlers.BAD_ID, stored_install) /\
  Handlers.handleDelete sample_readSettings sample_saveSettings (Some (JStr "9000"))
    stored_install
  = (Return Handlers.BAD_ID, stored_install).
Proof.
  apply (routes_reject_bad_ids sample_iso sample_readSettings sample_saveSettings
           (Some (JStr "9000")) (JObj [("name", JStr "Home all")]) stored_install).
  - reflexivity.
  - discriminate.
Defined.

Lemma handleCreate_round_trip_witness :
  Handlers.handleGet (Some (JStr "9002")) parked_install
  = (Return (Handlers.Reply 200 (park_record "9002" (sample_iso 0))), parked_install).
Proof.
  destruct (handleCreate_round_trip sample_iso sample_loadedAt park_request
              stored_install parked_install
              (Handlers.Reply 201 (park_record "9002" (sample_iso 0))))
    as (_ & _ & _ & Hget).
  - vm_compute. reflexivity.
  - reflexivity.
  - exact Hget.
Defined.


Lemma routes_unknown_id_witness :
  Handlers.handleUpdate sample_iso (Some (JStr "9002"))
    (Some (JObj [("name", JStr "Home all")])) stored_install
  = (Return (Handlers.failure 404 "Macro with id 9002 not found"), stored_install) /\
  Handlers.handleDelete sample_readSettings sample_saveSettings (Some (JStr "9002"))
    stored_install
  = (Return (Handlers.failure 404 "Macro with id 9002 not found"), stored_install).
Proof.
  destruct (routes_unknown_id sample_iso sample_readSettings sample_saveSettings
              (Some (JStr "9002")) (JObj [("name", JStr "Home all")]) stored_install)
    as (normalized & Hn & Hrun).
  - discriminate.
  - reflexivity.
  - reflexivity.
  - vm_compute in Hn. injection Hn as <-. exact Hrun.
Defined.


Lemma handleList_after_create_witness :
  exists ms w3,
    Handlers.handleList sample_iso sample_loadedAt parked_install
    = (Return (Handlers.Reply 200 (JArr ms)), w3) /\
    park_record "9002" (sample_iso 0) ∈ ms.
Proof.
  destruct (handleList_after_create sample_iso sample_loadedAt park_request
              stored_install parked_install
              (Handlers.Reply 201 (park_record "9002" (sample_iso 0))))
    as (ms & w3 & Hrun & Hin & _).
  - vm_compute. reflexivity.
  - reflexivity.
  - exists ms, w3. split; [exact Hrun|exact Hin].
Defined.

Lemma execute_checks_first_witness :
  Routes.handleExecute true (fun _ => Some (JBool true)) (fun _ => None)
    sample_process sample_sendCommand sample_stamp (Some (JStr "9002")) sample_request
  = (Return tt, logged (Routes.Responded not_found_response) sample_request).
Proof.
  apply (execute_checks_first true (fun _ => Some (JBool true)) (fun _ => None)
           sample_process sample_sendCommand sample_stamp (Some (JStr "9002"))
           sample_request).
  - reflexivity.
  - reflexivity.
Defined.

